(** * Verification of [robustJsonParse]

    The AI service layer of the application funnels every model response
    through one helper, [robustJsonParse]: it scans the raw text for the first
    opening brace or bracket and the last closing brace or bracket, cuts the
    text between them out with [String.prototype.substring] and hands it to
    [JSON.parse]; a parse failure is reported on the error console and
    rethrown as a generic [Error].

    This development embeds that function, together with the platform
    operations it calls, and proves the properties its specification states
    about it. *)

From Stdlib Require Import ZArith NArith List String Ascii Bool Lia.
From Stdlib Require Import DecimalString.
Import ListNotations.

Local Open Scope Z_scope.

(** ** JavaScript strings

    A JavaScript string is a sequence of 16-bit code units; indices, as
    returned by [indexOf] and consumed by [substring], count code units. *)

Definition char16 := N.
Definition jsstring := list char16.

(** A source-code literal of ASCII characters, one code unit each. *)
Definition str (s : string) : jsstring :=
  List.map N_of_ascii (list_ascii_of_string s).

Definition ch (a : ascii) : char16 := N_of_ascii a.

(** The double quote, which cannot be written inside a literal here. *)
Definition dquote : char16 := 34%N.

(** [s.indexOf(c)] for a search string of one code unit: the least index at
    which [c] occurs, or -1. *)
Fixpoint indexOf (s : jsstring) (c : char16) : Z :=
  match s with
  | [] => -1
  | x :: t =>
      if N.eqb x c then 0
      else let r := indexOf t c in
           if r =? -1 then -1 else r + 1
  end.

(** [s.lastIndexOf(c)] for a search string of one code unit: the greatest
    index at which [c] occurs, or -1. *)
Fixpoint lastIndexOf (s : jsstring) (c : char16) : Z :=
  match s with
  | [] => -1
  | x :: t =>
      let r := lastIndexOf t c in
      if r =? -1 then (if N.eqb x c then 0 else -1) else r + 1
  end.

(** [s.substring(start, end)]: both arguments are clamped to [0, length],
    and swapped when the first exceeds the second. *)
Definition clamp (n len : Z) : Z := Z.min (Z.max n 0) len.

Definition substring (s : jsstring) (start end_ : Z) : jsstring :=
  let len := Z.of_nat (List.length s) in
  let finalStart := clamp start len in
  let finalEnd := clamp end_ len in
  let from := Z.min finalStart finalEnd in
  let to := Z.max finalStart finalEnd in
  firstn (Z.to_nat (to - from)) (skipn (Z.to_nat from) s).

(** ** JavaScript values produced by [JSON.parse] *)

(** A number, kept as the exact decimal its literal denotes:
    [(-1)^neg * mant * 10^expo], with [mant] free of trailing zeros.  The
    rounding to an IEEE double that the engine performs is not modelled. *)
Record Num := mkNum { neg : bool; mant : N; expo : Z }.

(** An object is its list of own properties in creation order (the engine's
    reordering of integer-like keys on enumeration is not modelled). *)
#[warnings="-register-all"]
Inductive JSValue :=
| JNull
| JBool (b : bool)
| JNumber (n : Num)
| JString (s : jsstring)
| JArray (elems : list JSValue)
| JObject (props : list (jsstring * JSValue)).

(** ** Thrown values and completions *)

(** The two kinds of exception in play: the [SyntaxError] of [JSON.parse]
    (its message is engine-defined and not modelled) and the plain [Error]
    objects built by [robustJsonParse], which carry a message and nothing
    else. *)
Inductive Thrown :=
| SyntaxError
| Error (message : jsstring).

Inductive Completion (A : Type) :=
| Normal (a : A)
| Throw (e : Thrown).
Arguments Normal {A} a.
Arguments Throw {A} e.

(** ** [JSON.parse]

    The built-in, without reviver, following the JSON grammar of ECMA-404 as
    ECMA-262 prescribes: whitespace is space, tab, line feed and carriage
    return; a duplicate key overwrites the earlier value. *)
Module JSON.

Definition is_ws (c : char16) : bool :=
  (N.eqb c 32 || N.eqb c 9 || N.eqb c 10 || N.eqb c 13)%bool.

Fixpoint skip_ws (s : jsstring) : jsstring :=
  match s with
  | c :: t => if is_ws c then skip_ws t else s
  | [] => []
  end.

(** [strip_prefix p s] is what follows [p] in [s], when [s] starts with [p]. *)
Fixpoint strip_prefix (p s : jsstring) : option jsstring :=
  match p, s with
  | [], _ => Some s
  | a :: p', b :: s' => if N.eqb a b then strip_prefix p' s' else None
  | _ :: _, [] => None
  end.

(** *** Numbers *)

Definition is_digit (c : char16) : bool := (N.leb 48 c && N.leb c 57)%bool.

(** The longest run of decimal digits at the head of [s], as digit values. *)
Fixpoint take_digits (s : jsstring) : list N * jsstring :=
  match s with
  | c :: t =>
      if is_digit c then
        let (ds, r) := take_digits t in ((c - 48)%N :: ds, r)
      else ([], s)
  | [] => ([], [])
  end.

Definition digits_value (ds : list N) : N :=
  fold_left (fun acc d => (acc * 10 + d)%N) ds 0%N.

(** Drops the zeros at the front of a list of digits; applied to the reversed
    digits of a mantissa it removes the trailing zeros and counts them. *)
Fixpoint drop_zeros (ds : list N) : list N * Z :=
  match ds with
  | d :: t => if N.eqb d 0 then let (r, k) := drop_zeros t in (r, k + 1)
              else (ds, 0)
  | [] => ([], 0)
  end.

Definition make_num (negative : bool) (int_ds frac_ds : list N) (e : Z) : Num :=
  let (sig_rev, zeros) := drop_zeros (rev (int_ds ++ frac_ds)) in
  let m := digits_value (rev sig_rev) in
  if N.eqb m 0 then mkNum negative 0 0
  else mkNum negative m (e - Z.of_nat (List.length frac_ds) + zeros).

(** int: a single 0, or a non-zero digit followed by digits. *)
Definition parse_int (s : jsstring) : option (list N * jsstring) :=
  match s with
  | c :: t =>
      if N.eqb c 48 then Some ([0%N], t)
      else if is_digit c then Some (take_digits s)
      else None
  | [] => None
  end.

(** frac: nothing, or a dot followed by at least one digit. *)
Definition parse_frac (s : jsstring) : option (list N * jsstring) :=
  match s with
  | c :: t =>
      if N.eqb c 46 then
        match take_digits t with
        | ([], _) => None
        | (ds, r) => Some (ds, r)
        end
      else Some ([], s)
  | [] => Some ([], [])
  end.

(** exp: nothing, or e/E, an optional sign, and at least one digit. *)
Definition parse_exp (s : jsstring) : option (Z * jsstring) :=
  match s with
  | c :: t =>
      if (N.eqb c 101 || N.eqb c 69)%bool then
        let (sign, t') :=
          match t with
          | d :: u => if N.eqb d 45 then (-1, u)
                      else if N.eqb d 43 then (1, u) else (1, t)
          | [] => (1, t)
          end in
        match take_digits t' with
        | ([], _) => None
        | (ds, r) => Some (sign * Z.of_N (digits_value ds), r)
        end
      else Some (0, s)
  | [] => Some (0, [])
  end.

Definition parse_number (s : jsstring) : option (Num * jsstring) :=
  let (negative, s1) :=
    match s with
    | c :: t => if N.eqb c 45 then (true, t) else (false, s)
    | [] => (false, s)
    end in
  match parse_int s1 with
  | None => None
  | Some (int_ds, s2) =>
      match parse_frac s2 with
      | None => None
      | Some (frac_ds, s3) =>
          match parse_exp s3 with
          | None => None
          | Some (e, s4) => Some (make_num negative int_ds frac_ds e, s4)
          end
      end
  end.

(** *** Strings *)

Definition hex_value (c : char16) : option N :=
  if is_digit c then Some (c - 48)%N
  else if (N.leb 97 c && N.leb c 102)%bool then Some (c - 87)%N
  else if (N.leb 65 c && N.leb c 70)%bool then Some (c - 55)%N
  else None.

Definition hex4 (a b c d : char16) : option char16 :=
  match hex_value a, hex_value b, hex_value c, hex_value d with
  | Some x, Some y, Some z, Some w => Some (((x * 16 + y) * 16 + z) * 16 + w)%N
  | _, _, _, _ => None
  end.

(** The code unit denoted by a one-letter escape. *)
Definition unescape (e : char16) : option char16 :=
  if N.eqb e 34 then Some 34%N          (* quotation mark *)
  else if N.eqb e 92 then Some 92%N     (* reverse solidus *)
  else if N.eqb e 47 then Some 47%N     (* solidus *)
  else if N.eqb e 98 then Some 8%N      (* b: backspace *)
  else if N.eqb e 102 then Some 12%N    (* f: form feed *)
  else if N.eqb e 110 then Some 10%N    (* n: line feed *)
  else if N.eqb e 114 then Some 13%N    (* r: carriage return *)
  else if N.eqb e 116 then Some 9%N     (* t: tab *)
  else None.

(** The characters of a string literal after its opening quote, up to and
    including the closing quote. *)
Fixpoint parse_chars (s : jsstring) : option (jsstring * jsstring) :=
  match s with
  | [] => None
  | c :: t =>
      if N.eqb c 34 then Some ([], t)
      else if N.eqb c 92 then
        match t with
        | [] => None
        | e :: t1 =>
            if N.eqb e 117 then
              match t1 with
              | h1 :: h2 :: h3 :: h4 :: t2 =>
                  match hex4 h1 h2 h3 h4 with
                  | None => None
                  | Some u =>
                      match parse_chars t2 with
                      | None => None
                      | Some (r, rest) => Some (u :: r, rest)
                      end
                  end
              | _ => None
              end
            else
              match unescape e with
              | None => None
              | Some u =>
                  match parse_chars t1 with
                  | None => None
                  | Some (r, rest) => Some (u :: r, rest)
                  end
              end
        end
      else if N.ltb c 32 then None
      else
        match parse_chars t with
        | None => None
        | Some (r, rest) => Some (c :: r, rest)
        end
  end.

(** *** Objects *)

Definition jsstring_eqb (a b : jsstring) : bool :=
  if list_eq_dec N.eq_dec a b then true else false.

(** Defining a data property: an existing key keeps its place and takes the
    new value, a new key goes last. *)
Fixpoint set_prop (props : list (jsstring * JSValue)) (k : jsstring) (v : JSValue)
  : list (jsstring * JSValue) :=
  match props with
  | [] => [(k, v)]
  | (k', v') :: t =>
      if jsstring_eqb k' k then (k, v) :: t else (k', v') :: set_prop t k v
  end.

(** *** Values

    Recursive descent.  [fuel] bounds the number of nested or successive
    values still to be read; every unit of fuel is spent on at least one
    code unit, so the length of the text is always enough (see [parse]). *)
Fixpoint parse_value (fuel : nat) (s : jsstring) : option (JSValue * jsstring) :=
  match fuel with
  | O => None
  | S f =>
      match s with
      | [] => None
      | c :: t =>
          if N.eqb c 123 then                       (* { *)
            match skip_ws t with
            | d :: r => if N.eqb d 125 then Some (JObject [], r)
                        else parse_members f [] (d :: r)
            | [] => None
            end
          else if N.eqb c 91 then                   (* [ *)
            match skip_ws t with
            | d :: r => if N.eqb d 93 then Some (JArray [], r)
                        else parse_elements f [] (d :: r)
            | [] => None
            end
          else if N.eqb c 34 then                   (* string *)
            match parse_chars t with
            | Some (v, r) => Some (JString v, r)
            | None => None
            end
          else if N.eqb c 116 then                  (* true *)
            match strip_prefix (str "rue") t with
            | Some r => Some (JBool true, r)
            | None => None
            end
          else if N.eqb c 102 then                  (* false *)
            match strip_prefix (str "alse") t with
            | Some r => Some (JBool false, r)
            | None => None
            end
          else if N.eqb c 110 then                  (* null *)
            match strip_prefix (str "ull") t with
            | Some r => Some (JNull, r)
            | None => None
            end
          else
            match parse_number s with
            | Some (n, r) => Some (JNumber n, r)
            | None => None
            end
      end
  end

(** The members of an object after its opening brace and whitespace, the
    first member still to come; [acc] holds the properties read so far. *)
with parse_members (fuel : nat) (acc : list (jsstring * JSValue)) (s : jsstring)
  : option (JSValue * jsstring) :=
  match fuel with
  | O => None
  | S f =>
      match s with
      | [] => None
      | c :: t =>
          if N.eqb c 34 then
            match parse_chars t with
            | None => None
            | Some (k, r1) =>
                match skip_ws r1 with
                | [] => None
                | d :: r2 =>
                    if N.eqb d 58 then                (* : *)
                      match parse_value f (skip_ws r2) with
                      | None => None
                      | Some (v, r3) =>
                          match skip_ws r3 with
                          | [] => None
                          | e :: r4 =>
                              if N.eqb e 44 then      (* , *)
                                parse_members f (set_prop acc k v) (skip_ws r4)
                              else if N.eqb e 125 then  (* } *)
                                Some (JObject (set_prop acc k v), r4)
                              else None
                          end
                      end
                    else None
                end
            end
          else None
      end
  end

(** The elements of an array after its opening bracket and whitespace, the
    first element still to come; [acc] holds the elements read so far,
    latest first. *)
with parse_elements (fuel : nat) (acc : list JSValue) (s : jsstring)
  : option (JSValue * jsstring) :=
  match fuel with
  | O => None
  | S f =>
      match parse_value f s with
      | None => None
      | Some (v, r1) =>
          match skip_ws r1 with
          | [] => None
          | e :: r2 =>
              if N.eqb e 44 then                      (* , *)
                parse_elements f (v :: acc) (skip_ws r2)
              else if N.eqb e 93 then                 (* ] *)
                Some (JArray (rev (v :: acc)), r2)
              else None
          end
      end
  end.

(** [JSON.parse(text)]: one value, whitespace allowed around it and nothing
    else; anything different throws a [SyntaxError]. *)
Definition parse (text : jsstring) : Completion JSValue :=
  match parse_value (S (List.length text)) (skip_ws text) with
  | Some (v, r) =>
      match skip_ws r with
      | [] => Normal v
      | _ :: _ => Throw SyntaxError
      end
  | None => Throw SyntaxError
  end.

End JSON.

(** ** The error console

    [console.error] is the one effect of [robustJsonParse]: each call adds an
    entry, the list of its arguments, to the console.  Computations thread
    the console and end in a completion. *)

Inductive LogArg :=
| LString (s : jsstring)
| LThrown (e : Thrown).

Definition Console := list (list LogArg).

Definition M (A : Type) : Type := Console -> Console * Completion A.

Definition ret {A} (a : A) : M A := fun c => (c, Normal a).

Definition throw {A} (e : Thrown) : M A := fun c => (c, Throw e).

Definition bind {A B} (m : M A) (k : A -> M B) : M B :=
  fun c =>
    match m c with
    | (c', Normal a) => k a c'
    | (c', Throw e) => (c', Throw e)
    end.

Definition try_catch {A} (m : M A) (handler : Thrown -> M A) : M A :=
  fun c =>
    match m c with
    | (c', Normal a) => (c', Normal a)
    | (c', Throw e) => handler e c'
    end.

(** A built-in that touches no state. *)
Definition lift {A} (r : Completion A) : M A := fun c => (c, r).

Definition console_error (args : list LogArg) : M unit :=
  fun c => (c ++ [args], Normal tt).

Notation "m ;; k" := (bind m (fun _ => k))
  (at level 61, right associativity).

(** ** [robustJsonParse] *)

Definition msg_no_json : jsstring :=
  str "No JSON object or array found in the response.".
Definition msg_no_end : jsstring :=
  str "Could not find a valid end for the JSON content.".
Definition msg_unparsable : jsstring :=
  str "The AI returned a response that could not be parsed as JSON.".

Definition robustJsonParse (jsonString : jsstring) : M JSValue :=
  (* Find the first brace or bracket to start the JSON content *)
  let firstBrace := indexOf jsonString (ch "{") in
  let firstBracket := indexOf jsonString (ch "[") in
  if ((firstBrace =? -1) && (firstBracket =? -1))%bool then
    throw (Error msg_no_json)
  else
    let startIndex :=
      if firstBrace =? -1 then firstBracket
      else if firstBracket =? -1 then firstBrace
      else Z.min firstBrace firstBracket in
    (* Find the last brace or bracket to end the JSON content *)
    let lastBrace := lastIndexOf jsonString (ch "}") in
    let lastBracket := lastIndexOf jsonString (ch "]") in
    let endIndex := Z.max lastBrace lastBracket in
    if endIndex =? -1 then
      throw (Error msg_no_end)
    else
      let jsonSubString := substring jsonString startIndex (endIndex + 1) in
      try_catch (lift (JSON.parse jsonSubString))
        (fun error =>
           console_error [LString (str "Failed to parse JSON substring:");
                          LThrown error] ;;
           console_error [LString (str "Original string:");
                          LString jsonString] ;;
           console_error [LString (str "Extracted substring:");
                          LString jsonSubString] ;;
           throw (Error msg_unparsable)).

(** *** The locals of [robustJsonParse], as functions of its argument *)

(** [startIndex], as assigned by the if/else chain once at least one of the
    two first indices is not -1. *)
Definition startIndex (jsonString : jsstring) : Z :=
  let firstBrace := indexOf jsonString (ch "{") in
  let firstBracket := indexOf jsonString (ch "[") in
  if firstBrace =? -1 then firstBracket
  else if firstBracket =? -1 then firstBrace
  else Z.min firstBrace firstBracket.

Definition endIndex (jsonString : jsstring) : Z :=
  let lastBrace := lastIndexOf jsonString (ch "}") in
  let lastBracket := lastIndexOf jsonString (ch "]") in
  Z.max lastBrace lastBracket.

(** [jsonSubString], the text handed to [JSON.parse]. *)
Definition jsonSubString (jsonString : jsstring) : jsstring :=
  substring jsonString (startIndex jsonString) (endIndex jsonString + 1).

(** The try/catch block that ends the function: parse [jsonSubString]; on
    failure log the parser's error, the original string and the extracted
    substring, and throw a fresh [Error]. *)
Definition parseOrReport (jsonString jsonSubString : jsstring) : M JSValue :=
  try_catch (lift (JSON.parse jsonSubString))
    (fun error =>
       console_error [LString (str "Failed to parse JSON substring:");
                      LThrown error] ;;
       console_error [LString (str "Original string:");
                      LString jsonString] ;;
       console_error [LString (str "Extracted substring:");
                      LString jsonSubString] ;;
       throw (Error msg_unparsable)).

(** ** Vocabulary of the specification *)

(** The specification names the function [extractAndDecode] and sorts its
    failures into two kinds.  The code throws plain [Error] objects; the kind
    is told by the message. *)
Definition extractAndDecode := robustJsonParse.

Definition ExtractionError (e : Thrown) : Prop :=
  e = Error msg_no_json \/ e = Error msg_no_end.

Definition DecodeError (e : Thrown) : Prop :=
  e = Error msg_unparsable.

Definition fails_with {A} (P : Thrown -> Prop) (r : Console * Completion A) : Prop :=
  exists e, snd r = Throw e /\ P e.

Definition is_open (c : char16) : Prop := c = ch "{" \/ c = ch "[".
Definition is_close (c : char16) : Prop := c = ch "}" \/ c = ch "]".

Definition has_open (s : jsstring) : Prop := In (ch "{") s \/ In (ch "[") s.
Definition has_close (s : jsstring) : Prop := In (ch "}") s \/ In (ch "]") s.

(** Prose around a payload: text with none of the four delimiters. *)
Definition no_delimiter (s : jsstring) : Prop := ~ has_open s /\ ~ has_close s.

(** The code units of [s] at the indices [i], [i+1], ..., [j]. *)
Definition span (s : jsstring) (i j : Z) : jsstring :=
  firstn (Z.to_nat (j - i + 1)) (skipn (Z.to_nat i) s).

(** The three console entries written when parsing fails. *)
Definition failure_report (jsonString jsonSubString : jsstring) : Console :=
  [ [LString (str "Failed to parse JSON substring:"); LThrown SyntaxError];
    [LString (str "Original string:"); LString jsonString];
    [LString (str "Extracted substring:"); LString jsonSubString] ].

(** A string literal of JSON text: [s] between double quotes. *)
Definition quoted (s : jsstring) : jsstring := dquote :: s ++ [dquote].

(** A payload in the strict sense: text that opens with a brace or bracket
    and closes with one. *)
Definition delimited (j : jsstring) : Prop :=
  exists o mid cl, is_open o /\ is_close cl /\ j = o :: mid ++ [cl].

(** The first and the last code unit of a string. *)
Definition first_unit (s : jsstring) : option char16 := hd_error s.
Definition last_unit (s : jsstring) : option char16 := hd_error (rev s).

(** The text handed to the parser runs from index [i] to index [j] of [s],
    both endpoint code units included. *)
Definition spans_inclusive (s sub : jsstring) (i j : Z) : Prop :=
  sub = span s i j /\
  first_unit sub = nth_error s (Z.to_nat i) /\
  last_unit sub = nth_error s (Z.to_nat j).

(** The only opening delimiter of [s] is the bracket, and no closing
    delimiter comes after its first occurrence. *)
Definition bracket_never_closed (s : jsstring) : Prop :=
  ~ In (ch "{") s /\
  exists pre post,
    s = pre ++ ch "[" :: post /\ ~ In (ch "[") pre /\ ~ has_close post.

(** A thrown value preserves the raw input and the extracted substring when
    both can be read back from it. *)
Definition payload_preserves (raw_of sub_of : Thrown -> jsstring) : Prop :=
  forall s c e,
    snd (extractAndDecode s c) = Throw e -> DecodeError e ->
    raw_of e = s /\ sub_of e = jsonSubString s.

Definition is_container (v : JSValue) : Prop :=
  match v with
  | JObject _ | JArray _ => True
  | _ => False
  end.

(** ** Shapes of parsed text

    The properties by which [JSON.parse] is shown to read no further than it
    must. *)

(** A text whose first code unit is not whitespace. *)
Definition solid (p : jsstring) : Prop :=
  exists c t, p = c :: t /\ JSON.is_ws c = false.

(** A text of whitespace only. *)
Definition blank (w : jsstring) : Prop :=
  Forall (fun c => JSON.is_ws c = true) w.

(** A successful [parse_value] splits its input into a consumed text [p]
    and the rest.  The consumed text is solid, and delimited when the value
    is an object or an array; the same value is read from [p] followed by any
    other rest that starts alike (by any rest at all after an object or an
    array), with any fuel of at least the length of [p]. *)
Definition value_local (f : nat) : Prop :=
  forall s v r, JSON.parse_value f s = Some (v, r) ->
  exists p, s = p ++ r /\ solid p /\ (is_container v -> delimited p) /\
    forall f' r2, (List.length p <= f')%nat ->
      is_container v \/ hd_error r2 = hd_error r ->
      JSON.parse_value f' (p ++ r2) = Some (v, r2).

(** The same for the members of an object: the consumed text is [q] and the
    closing brace [cl]. *)
Definition members_local (f : nat) : Prop :=
  forall acc s v r, JSON.parse_members f acc s = Some (v, r) ->
  exists q cl, s = q ++ cl :: r /\ is_close cl /\ solid q /\ is_container v /\
    forall f' r2, (List.length q < f')%nat ->
      JSON.parse_members f' acc (q ++ cl :: r2) = Some (v, r2).

(** The same for the elements of an array. *)
Definition elements_local (f : nat) : Prop :=
  forall acc s v r, JSON.parse_elements f acc s = Some (v, r) ->
  exists q cl, s = q ++ cl :: r /\ is_close cl /\ solid q /\ is_container v /\
    forall f' r2, (List.length q < f')%nat ->
      JSON.parse_elements f' acc (q ++ cl :: r2) = Some (v, r2).

(** ** The inputs of the specification's examples *)

(** The object text with one member a, of value 1. *)
Definition object_a_1 : jsstring := str "{" ++ quoted (str "a") ++ str ":1}".

Definition two_fragments : jsstring :=
  str "noise " ++ object_a_1 ++ str " more noise [1,2,3] tail".

Definition greedy_span : jsstring := object_a_1 ++ str " more noise [1,2,3]".

Definition fenced : jsstring :=
  str "```json" ++ [10%N] ++ object_a_1 ++ [10%N] ++ str "```".

Definition broken : jsstring := str "{" ++ quoted (str "a") ++ str ": }".

Definition one : Num := mkNum false 1 0.
Definition seven : Num := mkNum false 7 0.

Definition value_a_1 : JSValue := JObject [(str "a", JNumber one)].

(** ** [findHighQualityWebImage]

    The fallback image source: the prompt is stripped of everything but
    letters, digits and spaces, cut into at most five words, and the words
    become the query of an Unsplash URL. *)

Definition is_alnum (c : char16) : bool :=
  ((N.leb 97 c && N.leb c 122) || (N.leb 65 c && N.leb c 90) ||
   (N.leb 48 c && N.leb c 57))%bool.

(** The class of the regular expression: letters, digits and the space. *)
Definition in_class (c : char16) : bool := (is_alnum c || N.eqb c 32)%bool.

(** [s.replace(re, empty)] for the global regular expression that matches
    one code unit outside the class: every such code unit is dropped. *)
Definition replace_outside_class (s : jsstring) : jsstring := filter in_class s.

(** [s.split(sep)] for a separator of one code unit.  The empty string
    splits into one empty piece. *)
Fixpoint split (s : jsstring) (sep : char16) : list jsstring :=
  match s with
  | [] => [[]]
  | c :: t =>
      if N.eqb c sep then [] :: split t sep
      else match split t sep with
           | w :: ws => (c :: w) :: ws
           | [] => [[c]]
           end
  end.

(** [a.slice(start, end)]: a negative argument counts from the end, and both
    are clamped to the array. *)
Definition slice {A} (a : list A) (start end_ : Z) : list A :=
  let len := Z.of_nat (List.length a) in
  let k := if start <? 0 then Z.max (len + start) 0 else Z.min start len in
  let final := if end_ <? 0 then Z.max (len + end_) 0 else Z.min end_ len in
  firstn (Z.to_nat (final - k)) (skipn (Z.to_nat k) a).

(** [a.join(sep)] for an array of strings. *)
Fixpoint join (a : list jsstring) (sep : jsstring) : jsstring :=
  match a with
  | [] => []
  | [w] => w
  | w :: t => w ++ sep ++ join t sep
  end.

(** *** [encodeURIComponent] *)

(** The code units left as they are: letters, digits and the marks
    - _ . ! ~ * ' ( ) *)
Definition uri_unescaped (c : char16) : bool :=
  (is_alnum c ||
   N.eqb c 45 || N.eqb c 95 || N.eqb c 46 || N.eqb c 33 || N.eqb c 126 ||
   N.eqb c 42 || N.eqb c 39 || N.eqb c 40 || N.eqb c 41)%bool.

Definition hex_digit (n : N) : char16 :=
  if N.ltb n 10 then (48 + n)%N else (55 + n)%N.

(** A percent sign and the two upper-case hexadecimal digits of an octet. *)
Definition percent (octet : N) : jsstring :=
  [37%N; hex_digit (octet / 16); hex_digit (octet mod 16)].

Definition utf8 (cp : N) : list N :=
  if N.ltb cp 128 then [cp]
  else if N.ltb cp 2048 then [(192 + cp / 64)%N; (128 + cp mod 64)%N]
  else if N.ltb cp 65536 then
    [(224 + cp / 4096)%N; (128 + (cp / 64) mod 64)%N; (128 + cp mod 64)%N]
  else
    [(240 + cp / 262144)%N; (128 + (cp / 4096) mod 64)%N;
     (128 + (cp / 64) mod 64)%N; (128 + cp mod 64)%N].

Definition percent_encode (cp : N) : jsstring := flat_map percent (utf8 cp).

(** [encodeURIComponent(s)]; [None] stands for the [URIError] thrown on an
    unpaired surrogate. *)
Fixpoint encodeURIComponent (s : jsstring) : option jsstring :=
  match s with
  | [] => Some []
  | c :: t =>
      if uri_unescaped c then option_map (cons c) (encodeURIComponent t)
      else if (N.ltb c 55296 || N.ltb 57343 c)%bool then
        option_map (app (percent_encode c)) (encodeURIComponent t)
      else if N.leb c 56319 then
        match t with
        | d :: t' =>
            if (N.leb 56320 d && N.leb d 57343)%bool then
              option_map
                (app (percent_encode ((c - 55296) * 1024 + (d - 56320) + 65536)))
                (encodeURIComponent t')
            else None
        | [] => None
        end
      else None
  end.

Record WebImage := mkWebImage { url : jsstring; source : jsstring }.

(** The words taken from the prompt: the array that is joined. *)
Definition promptWords (prompt : jsstring) : list jsstring :=
  slice (split (replace_outside_class prompt) (ch " ")) 0 5.

(** [Math_random] is the text that [Math.random()] contributes to the
    template literal. *)
Definition findHighQualityWebImage (Math_random : jsstring) (prompt : jsstring)
  : option WebImage :=
  match
    encodeURIComponent
      (join (slice (split (replace_outside_class prompt) (ch " ")) 0 5) (str ","))
  with
  | None => None
  | Some keywords =>
      let imageUrl :=
        str "https://source.unsplash.com/1280x720/?" ++ keywords ++
        str "&sig=" ++ Math_random in
      Some {| url := imageUrl; source := str "Unsplash" |}
  end.

(** ** The service functions

    Each exported function of the service awaits one call of the generative
    AI's SDK, hands the text of the response to [robustJsonParse], checks or
    completes the decoded value, and turns every failure into an [Error] of
    its own after logging the cause.  The SDK is outside the program: what
    the awaited call comes to is an argument of the model, and the arguments
    that only shape the request are left out. *)

Section ServiceModel.

(** What a request can fail with before any response text is there. *)
Context {Rejection : Type}.

(** The engine's verdict on whether the Number read from a numeric literal
    is strictly equal to a small integer; the conversion of literals to
    doubles is left to the engine. *)
Variable number_is : Num -> nat -> bool.

(** What a catch block of the service can receive. *)
Inductive Caught :=
| CThrown (e : Thrown)           (* thrown by robustJsonParse or by a throw statement *)
| CTypeError                     (* a property of undefined or null, a call of a non-function *)
| CRejected (r : Rejection).     (* the request failed *)

(** The awaited SDK call and the read of the response's text, which is
    undefined when the response carries no text. *)
Inductive Awaited :=
| Resolved (text : option jsstring)
| Failed (e : Caught).

Inductive SLogArg :=
| SArg (a : LogArg)
| SCaught (e : Caught).

Definition SConsole := list (list SLogArg).

Inductive Outcome (A : Type) :=
| Done (a : A)
| Raised (e : Caught).
Arguments Done {A} a.
Arguments Raised {A} e.

Definition SM (A : Type) : Type := SConsole -> SConsole * Outcome A.

Definition done {A} (a : A) : SM A := fun c => (c, Done a).

Definition raise {A} (e : Caught) : SM A := fun c => (c, Raised e).

Definition andThen {A B} (m : SM A) (k : A -> SM B) : SM B :=
  fun c =>
    match m c with
    | (c', Done a) => k a c'
    | (c', Raised e) => (c', Raised e)
    end.

Definition pure {A} (r : Outcome A) : SM A := fun c => (c, r).

Definition await (ai : Awaited) : SM (option jsstring) :=
  match ai with
  | Resolved text => done text
  | Failed e => raise e
  end.

Definition lift_console (c : Console) : SConsole := List.map (List.map SArg) c.

(** The call [robustJsonParse(response.text)].  On an undefined text the
    first method call of the function is a [TypeError]; otherwise the entries
    the function writes go to the end of the console. *)
Definition callRobustJsonParse (text : option jsstring) : SM JSValue :=
  fun c =>
    match text with
    | None => (c, Raised CTypeError)
    | Some jsonString =>
        let (log, r) := robustJsonParse jsonString [] in
        (c ++ lift_console log,
         match r with
         | Normal v => Done v
         | Throw e => Raised (CThrown e)
         end)
    end.

(** The try/catch every function is wrapped in: the cause is logged under
    the function's label and an [Error] with the function's message takes
    its place. *)
Definition guarded {A} (label message : jsstring) (body : SM A) : SM A :=
  fun c =>
    match body c with
    | (c', Done a) => (c', Done a)
    | (c', Raised error) =>
        (c' ++ [[SArg (LString label); SCaught error]],
         Raised (CThrown (Error message)))
    end.

(** *** Property reads on a decoded value *)

Fixpoint get_own (props : list (jsstring * JSValue)) (k : jsstring)
  : option JSValue :=
  match props with
  | [] => None
  | (k', v) :: t => if JSON.jsstring_eqb k' k then Some v else get_own t k
  end.

(** [v.length]: the count of an array or a string, the own property of an
    object, nothing on a number or a boolean, and a [TypeError] on null. *)
Inductive Length :=
| LCount (n : nat)
| LValue (v : JSValue)
| LUndefined.

Definition get_length (v : JSValue) : Outcome Length :=
  match v with
  | JNull => Raised CTypeError
  | JBool _ | JNumber _ => Done LUndefined
  | JString s => Done (LCount (List.length s))
  | JArray elems => Done (LCount (List.length elems))
  | JObject props =>
      Done (match get_own props (str "length") with
            | Some x => LValue x
            | None => LUndefined
            end)
  end.

(** [len !== n], strict: only a number can be equal to [n]. *)
Definition differs (len : Length) (n : nat) : bool :=
  match len with
  | LCount m => negb (Nat.eqb m n)
  | LValue (JNumber x) => negb (number_is x n)
  | LValue _ => true
  | LUndefined => true
  end.

(** [v.k] for a key that is neither an index nor the name of a built-in
    property (items, options): the own property of an object, undefined on
    the other values, a [TypeError] on null. *)
Definition get_field (v : JSValue) (k : jsstring) : Outcome (option JSValue) :=
  match v with
  | JNull => Raised CTypeError
  | JObject props => Done (get_own props k)
  | _ => Done None
  end.

(** [a.some(callback)] on an array; the call is a [TypeError] on any other
    value, which has no such method. *)
Fixpoint some_of (callback : JSValue -> Outcome bool) (elems : list JSValue)
  : Outcome bool :=
  match elems with
  | [] => Done false
  | x :: t =>
      match callback x with
      | Raised e => Raised e
      | Done true => Done true
      | Done false => some_of callback t
      end
  end.

Definition some (v : JSValue) (callback : JSValue -> Outcome bool) : Outcome bool :=
  match v with
  | JArray elems => some_of callback elems
  | _ => Raised CTypeError
  end.

(** *** Object literals with a spread *)

Definition index_key (i : nat) : jsstring :=
  str (NilZero.string_of_uint (Nat.to_uint i)).

Fixpoint indexed {A} (f : A -> JSValue) (i : nat) (l : list A)
  : list (jsstring * JSValue) :=
  match l with
  | [] => []
  | x :: t => (index_key i, f x) :: indexed f (S i) t
  end.

(** The own enumerable properties a spread copies: those of an object, the
    elements of an array and the code units of a string under their indices,
    none for a number, a boolean or null. *)
Definition own_enumerable (v : JSValue) : list (jsstring * JSValue) :=
  match v with
  | JObject props => props
  | JArray elems => indexed (fun e => e) 0 elems
  | JString s => indexed (fun c => JString [c]) 0 s
  | JNull | JBool _ | JNumber _ => []
  end.

Definition define_all (props more : list (jsstring * JSValue))
  : list (jsstring * JSValue) :=
  fold_left (fun acc kv => JSON.set_prop acc (fst kv) (snd kv)) more props.

(** The literal that spreads [v] and then lists the properties [more]. *)
Definition spread_with (v : JSValue) (more : list (jsstring * JSValue)) : JSValue :=
  JObject (define_all (define_all [] (own_enumerable v)) more).

(** *** The functions *)

Definition generateSimplifiedContent (ai : Awaited) : SM JSValue :=
  guarded (str "Error simplifying content:")
    (str "Failed to simplify content. The model may not be able to process this file type or the content may be too complex.")
    (andThen (await ai) callRobustJsonParse).

Definition translateContent (targetLanguage : jsstring) (ai : Awaited) : SM JSValue :=
  guarded (str "Error translating content to " ++ targetLanguage ++ str ":")
    (str "Failed to translate content. The AI service may not support this language or encountered an error.")
    (andThen (await ai) callRobustJsonParse).

Definition generateComprehensionTest (ai : Awaited) : SM JSValue :=
  guarded (str "Error generating comprehension test:")
    (str "Failed to generate the comprehension test.")
    (andThen (await ai) (fun text =>
     andThen (callRobustJsonParse text) (fun questions =>
     andThen (pure (get_length questions)) (fun len =>
     if differs len 4 then
       raise (CThrown (Error (str "AI did not generate exactly 4 questions.")))
     else done questions)))).

Definition evaluateComprehensionTest (ai : Awaited) : SM JSValue :=
  guarded (str "Error evaluating comprehension test:")
    (str "Failed to evaluate the test answers.")
    (andThen (await ai) callRobustJsonParse).

Definition generateAnalyticsInsights (ai : Awaited) : SM JSValue :=
  guarded (str "Error generating analytics insights:")
    (str "Failed to generate AI-powered insights.")
    (andThen (await ai) callRobustJsonParse).

Definition getThinkBotChallenge (category : jsstring) (ai : Awaited) : SM JSValue :=
  guarded (str "Error getting SparkIQ challenge:")
    (str "Failed to generate a new challenge.")
    (andThen (await ai) (fun text =>
     andThen (callRobustJsonParse text) (fun parsed =>
     done (spread_with parsed [(str "category", JString category)])))).

Definition generateCustomThinkBotChallenge (category : jsstring) (ai : Awaited)
  : SM JSValue :=
  guarded (str "Error getting custom SparkIQ challenge:")
    (str "Failed to generate a custom challenge based on your prompt.")
    (andThen (await ai) (fun text =>
     andThen (callRobustJsonParse text) (fun parsed =>
     done (spread_with parsed [(str "category", JString category)])))).

(** [parsed.items?.length !== 4] *)
Definition items_length_differs (parsed : JSValue) : Outcome bool :=
  match get_field parsed (str "items") with
  | Raised e => Raised e
  | Done None | Done (Some JNull) => Done true
  | Done (Some items) =>
      match get_length items with
      | Raised e => Raised e
      | Done len => Done (differs len 4)
      end
  end.

Definition getOddOneOutChallenge (ai : Awaited) : SM JSValue :=
  guarded (str "Error getting Odd-One-Out challenge:")
    (str "Failed to generate an Odd-One-Out challenge.")
    (andThen (await ai) (fun text =>
     andThen (callRobustJsonParse text) (fun parsed =>
     andThen (pure (items_length_differs parsed)) (fun wrong =>
     if wrong : bool then
       raise (CThrown (Error (str "AI returned incorrect number of items for Odd-One-Out.")))
     else
       done (spread_with parsed [(str "category", JString (str "Odd-One-Out"))]))))).

Definition getListeningPracticeChallenge (ai : Awaited) : SM JSValue :=
  guarded (str "Error getting Listening Practice challenge:")
    (str "Failed to generate a Listening Practice challenge.")
    (andThen (await ai) (fun text =>
     andThen (callRobustJsonParse text) (fun parsed =>
     done (spread_with parsed
             [(str "category", JString (str "Listening Practice"));
              (str "suggestedTime", JNumber (mkNum false 0 0));
              (str "task",
               JString (str "Listen to the story and answer the questions that follow."))])))).

(** [q.options.length !== 4], the callback of the quiz check. *)
Definition options_length_differs (q : JSValue) : Outcome bool :=
  match get_field q (str "options") with
  | Raised e => Raised e
  | Done None => Raised CTypeError
  | Done (Some options) =>
      match get_length options with
      | Raised e => Raised e
      | Done len => Done (differs len 4)
      end
  end.

(** [questions.length !== 5 || questions.some(...)] *)
Definition quiz_malformed (questions : JSValue) : Outcome bool :=
  match get_length questions with
  | Raised e => Raised e
  | Done len =>
      if differs len 5 then Done true
      else some questions options_length_differs
  end.

Definition generateQuiz (ai : Awaited) : SM JSValue :=
  guarded (str "Error generating quiz:") (str "Failed to generate the quiz.")
    (andThen (await ai) (fun text =>
     andThen (callRobustJsonParse text) (fun questions =>
     andThen (pure (quiz_malformed questions)) (fun wrong =>
     if wrong : bool then
       raise (CThrown (Error (str "AI returned quiz in an unexpected format.")))
     else done questions)))).

(** *** What the checks accept *)

(** [v.length === n] holds: [v] is an array or a string of [n] entries, or
    an object whose own property length is a number equal to [n]. *)
Definition has_length (v : JSValue) (n : nat) : Prop :=
  match v with
  | JArray elems => List.length elems = n
  | JString s => List.length s = n
  | JObject props =>
      exists x, get_own props (str "length") = Some (JNumber x) /\
                number_is x n = true
  | JNull | JBool _ | JNumber _ => False
  end.

(** A quiz question the check lets through: an object whose own property
    options has length 4. *)
Definition quiz_question (q : JSValue) : Prop :=
  exists props options,
    q = JObject props /\ get_own props (str "options") = Some options /\
    has_length options 4.

(** [v] is an object with the properties listed in [more], and otherwise,
    when [parsed] is an object, with the properties of [parsed]. *)
Definition overrides (parsed : JSValue) (more : list (jsstring * JSValue))
    (v : JSValue) : Prop :=
  exists result,
    v = JObject result /\
    (forall k x, In (k, x) more -> get_own result k = Some x) /\
    (forall props, parsed = JObject props ->
       forall k, ~ In k (List.map fst more) -> get_own result k = get_own props k).

(** A function that returns the decoded value as it is. *)
Definition returns_decoded (f : Awaited -> SM JSValue) : Prop :=
  forall ai c c' v,
    f ai c = (c', Done v) <->
    c' = c /\
    exists text,
      ai = Resolved (Some text) /\ robustJsonParse text [] = ([], Normal v).

(** The messages of the errors that the checks of the functions throw. *)
Definition check_messages : list jsstring :=
  [str "AI did not generate exactly 4 questions.";
   str "AI returned incorrect number of items for Odd-One-Out.";
   str "AI returned quiz in an unexpected format."].

(** What a failed call has done when its catch block is entered: [log] is
    what was written to the console, [cause] what the block receives.  A
    failed request is the cause itself; a response without text makes the
    call of [robustJsonParse] a [TypeError]; an error of [robustJsonParse]
    is the cause, after the entries that function wrote; and once
    [robustJsonParse] has returned, the cause comes from a check: a
    [TypeError] or one of the checks' own errors. *)
Definition failure_trace (ai : Awaited) (log : SConsole) (cause : Caught) : Prop :=
  match ai with
  | Failed e => log = [] /\ cause = e
  | Resolved None => log = [] /\ cause = CTypeError
  | Resolved (Some text) =>
      log = lift_console (fst (robustJsonParse text [])) /\
      match snd (robustJsonParse text []) with
      | Throw e => cause = CThrown e
      | Normal _ =>
          cause = CTypeError \/
          exists m, In m check_messages /\ cause = CThrown (Error m)
      end
  end.

(** What follows the decoding in a function writes nothing and raises only
    a [TypeError] or a check's own error. *)
Definition quiet_check {A} (k : JSValue -> SM A) : Prop :=
  forall v c0 c1 e,
    k v c0 = (c1, Raised e) ->
    c1 = c0 /\
    (e = CTypeError \/ exists m, In m check_messages /\ e = CThrown (Error m)).

(** The functions that decode a response, each with the label it logs under
    and the message of the error it throws. *)
Inductive decoder : jsstring -> jsstring -> (Awaited -> SM JSValue) -> Prop :=
| dec_generateSimplifiedContent :
    decoder (str "Error simplifying content:")
      (str "Failed to simplify content. The model may not be able to process this file type or the content may be too complex.")
      generateSimplifiedContent
| dec_translateContent targetLanguage :
    decoder (str "Error translating content to " ++ targetLanguage ++ str ":")
      (str "Failed to translate content. The AI service may not support this language or encountered an error.")
      (translateContent targetLanguage)
| dec_generateComprehensionTest :
    decoder (str "Error generating comprehension test:")
      (str "Failed to generate the comprehension test.")
      generateComprehensionTest
| dec_evaluateComprehensionTest :
    decoder (str "Error evaluating comprehension test:")
      (str "Failed to evaluate the test answers.")
      evaluateComprehensionTest
| dec_generateAnalyticsInsights :
    decoder (str "Error generating analytics insights:")
      (str "Failed to generate AI-powered insights.")
      generateAnalyticsInsights
| dec_getThinkBotChallenge category :
    decoder (str "Error getting SparkIQ challenge:")
      (str "Failed to generate a new challenge.")
      (getThinkBotChallenge category)
| dec_generateCustomThinkBotChallenge category :
    decoder (str "Error getting custom SparkIQ challenge:")
      (str "Failed to generate a custom challenge based on your prompt.")
      (generateCustomThinkBotChallenge category)
| dec_getOddOneOutChallenge :
    decoder (str "Error getting Odd-One-Out challenge:")
      (str "Failed to generate an Odd-One-Out challenge.")
      getOddOneOutChallenge
| dec_getListeningPracticeChallenge :
    decoder (str "Error getting Listening Practice challenge:")
      (str "Failed to generate a Listening Practice challenge.")
      getListeningPracticeChallenge
| dec_generateQuiz :
    decoder (str "Error generating quiz:") (str "Failed to generate the quiz.")
      generateQuiz.

End ServiceModel.

(** The verdict of an engine on literals short enough to be read exactly:
    the number is not negative and its decimal value is the integer. *)
Definition decimal_is (x : Num) (n : nat) : bool :=
  (negb (neg x) && (0 <=? expo x) &&
   (Z.of_N (mant x) * 10 ^ expo x =? Z.of_nat n))%bool.

(** *** Sample responses *)

Definition sample_challenge_text : jsstring :=
  str "{" ++ quoted (str "title") ++ str ":" ++ quoted (str "T") ++ str "," ++
  quoted (str "category") ++ str ":" ++ quoted (str "Quiz") ++ str "}".

Definition sample_items_text : jsstring :=
  str "{" ++ quoted (str "items") ++ str ":[1,2,3,4]}".

Definition sample_question_text : jsstring :=
  str "{" ++ quoted (str "options") ++ str ":[1,2,3,4]}".

Definition sample_quiz_text : jsstring :=
  str "Your quiz: [" ++ sample_question_text ++ str "," ++
  sample_question_text ++ str "," ++ sample_question_text ++ str "," ++
  sample_question_text ++ str "," ++ sample_question_text ++ str "]".

Definition digit_value (n : N) : JSValue := JNumber (mkNum false n 0).

Definition four_numbers : JSValue :=
  JArray [digit_value 1; digit_value 2; digit_value 3; digit_value 4].

Definition sample_question : JSValue := JObject [(str "options", four_numbers)].

Definition sample_quiz : JSValue :=
  JArray [sample_question; sample_question; sample_question; sample_question;
          sample_question].

Arguments Done {Rejection A} a.
Arguments Raised {Rejection A} e.
Arguments CTypeError {Rejection}.
Arguments CThrown {Rejection} e.

(** ** The string operations *)

Section StringFacts.

Variable c : char16.

Lemma indexOf_range (s : jsstring) :
  -1 <= indexOf s c < Z.of_nat (List.length s).
Proof.
  induction s as [|x t IH]; simpl List.length; cbn [indexOf]; [lia|].
  destruct (N.eqb x c); [lia|].
  destruct (Z.eqb_spec (indexOf t c) (-1)); lia.
Qed.

Lemma indexOf_absent (s : jsstring) : indexOf s c = -1 <-> ~ In c s.
Proof.
  induction s as [|x t IH]; cbn [indexOf In]; [tauto|].
  pose proof (indexOf_range t) as R.
  destruct (N.eqb_spec x c) as [E|E].
  - split; [lia | intros H; exfalso; apply H; now left].
  - destruct (Z.eqb_spec (indexOf t c) (-1)) as [E'|E'].
    + split; [intros _ [H|H]; [easy | now apply IH in H] | easy].
    + split; [lia | intros H; exfalso; apply E', IH; tauto].
Qed.

Lemma indexOf_first (pre t : jsstring) :
  ~ In c pre -> indexOf (pre ++ c :: t) c = Z.of_nat (List.length pre).
Proof.
  induction pre as [|x pre IH]; intros H; cbn [app indexOf List.length].
  - now rewrite N.eqb_refl.
  - destruct (N.eqb_spec x c) as [E|E]; [exfalso; apply H; now left|].
    rewrite IH by (intros K; apply H; now right).
    destruct (Z.eqb_spec (Z.of_nat (List.length pre)) (-1)); lia.
Qed.

Lemma indexOf_skip (pre t : jsstring) :
  ~ In c pre ->
  indexOf (pre ++ t) c =
  if indexOf t c =? -1 then -1 else Z.of_nat (List.length pre) + indexOf t c.
Proof.
  induction pre as [|x pre IH]; intros H; cbn [app indexOf List.length].
  - destruct (Z.eqb_spec (indexOf t c) (-1)); lia.
  - destruct (N.eqb_spec x c) as [E|E]; [exfalso; apply H; now left|].
    rewrite IH by (intros K; apply H; now right).
    pose proof (indexOf_range t).
    destruct (Z.eqb_spec (indexOf t c) (-1)); [reflexivity|].
    destruct (Z.eqb_spec (Z.of_nat (List.length pre) + indexOf t c) (-1)); lia.
Qed.

Lemma indexOf_nth (s : jsstring) :
  indexOf s c <> -1 -> nth_error s (Z.to_nat (indexOf s c)) = Some c.
Proof.
  induction s as [|x t IH]; cbn [indexOf]; [easy|].
  pose proof (indexOf_range t) as R.
  destruct (N.eqb_spec x c) as [E|E]; [now subst|].
  destruct (Z.eqb_spec (indexOf t c) (-1)) as [E'|E']; [easy|]. intros _.
  replace (Z.to_nat (indexOf t c + 1)) with (S (Z.to_nat (indexOf t c))) by lia.
  now apply IH.
Qed.

Lemma lastIndexOf_range (s : jsstring) :
  -1 <= lastIndexOf s c < Z.of_nat (List.length s).
Proof.
  induction s as [|x t IH]; simpl List.length; cbn [lastIndexOf]; [lia|].
  destruct (Z.eqb_spec (lastIndexOf t c) (-1)); [destruct (N.eqb x c)|]; lia.
Qed.

Lemma lastIndexOf_absent (s : jsstring) : lastIndexOf s c = -1 <-> ~ In c s.
Proof.
  induction s as [|x t IH]; cbn [lastIndexOf In]; [tauto|].
  pose proof (lastIndexOf_range t) as R.
  destruct (Z.eqb_spec (lastIndexOf t c) (-1)) as [E'|E'].
  - destruct (N.eqb_spec x c) as [E|E].
    + split; [lia | intros H; exfalso; apply H; now left].
    + split; [intros _ [H|H]; [easy | now apply IH in H] | easy].
  - split; [lia | intros H; exfalso; apply E', IH; tauto].
Qed.

Lemma lastIndexOf_last (s post : jsstring) :
  ~ In c post -> lastIndexOf (s ++ c :: post) c = Z.of_nat (List.length s).
Proof.
  intros H. apply lastIndexOf_absent in H.
  induction s as [|x t IH]; cbn [app lastIndexOf List.length].
  - rewrite H, N.eqb_refl. reflexivity.
  - rewrite IH.
    destruct (Z.eqb_spec (Z.of_nat (List.length t)) (-1)); lia.
Qed.

Lemma lastIndexOf_skip (s post : jsstring) :
  ~ In c post -> lastIndexOf (s ++ post) c = lastIndexOf s c.
Proof.
  intros H. apply lastIndexOf_absent in H.
  induction s as [|x t IH]; cbn [app lastIndexOf]; [assumption|].
  now rewrite IH.
Qed.

Lemma lastIndexOf_nth (s : jsstring) :
  lastIndexOf s c <> -1 -> nth_error s (Z.to_nat (lastIndexOf s c)) = Some c.
Proof.
  induction s as [|x t IH]; cbn [lastIndexOf]; [easy|].
  pose proof (lastIndexOf_range t) as R.
  destruct (Z.eqb_spec (lastIndexOf t c) (-1)) as [E'|E'].
  - destruct (N.eqb_spec x c) as [E|E]; [now subst | easy].
  - intros _.
    replace (Z.to_nat (lastIndexOf t c + 1))
      with (S (Z.to_nat (lastIndexOf t c))) by lia.
    now apply IH.
Qed.

End StringFacts.

(** In range and in order, [substring] is the plain slice. *)
Lemma substring_ordered (s : jsstring) (a b : Z) :
  0 <= a <= b -> b <= Z.of_nat (List.length s) ->
  substring s a b = firstn (Z.to_nat (b - a)) (skipn (Z.to_nat a) s).
Proof.
  intros H1 H2. unfold substring, clamp.
  replace (Z.min (Z.max a 0) (Z.of_nat (List.length s))) with a by lia.
  replace (Z.min (Z.max b 0) (Z.of_nat (List.length s))) with b by lia.
  replace (Z.min a b) with a by lia. replace (Z.max a b) with b by lia.
  reflexivity.
Qed.

(** Out of order, [substring] swaps its arguments. *)
Lemma substring_swapped (s : jsstring) (a b : Z) :
  0 <= b <= a -> a <= Z.of_nat (List.length s) ->
  substring s a b = firstn (Z.to_nat (a - b)) (skipn (Z.to_nat b) s).
Proof.
  intros H1 H2. unfold substring, clamp.
  replace (Z.min (Z.max a 0) (Z.of_nat (List.length s))) with a by lia.
  replace (Z.min (Z.max b 0) (Z.of_nat (List.length s))) with b by lia.
  replace (Z.min a b) with b by lia. replace (Z.max a b) with a by lia.
  reflexivity.
Qed.

Lemma substring_middle (pre j post : jsstring) :
  substring (pre ++ j ++ post) (Z.of_nat (List.length pre))
    (Z.of_nat (List.length pre + List.length j)) = j.
Proof.
  rewrite substring_ordered by (rewrite ?length_app; lia).
  rewrite Nat2Z.id, skipn_app, skipn_all, Nat.sub_diag. cbn [app skipn].
  replace (Z.to_nat _) with (List.length j + 0)%nat by lia.
  now rewrite firstn_app_2, firstn_O, app_nil_r.
Qed.

(** ** [JSON.parse] reads no further than it must

    A successful parse splits its input into the text it consumed and the
    rest; it has looked at one code unit of the rest at most, and at none
    after a closing brace, bracket or quote.  The fuel it needs is bounded by
    the length of what it consumed. *)

Module JSONFacts.
Import JSON.

Lemma hd_error_app (p r r2 : jsstring) :
  hd_error r2 = hd_error r -> hd_error (p ++ r2) = hd_error (p ++ r).
Proof. now destruct p. Qed.

Lemma skip_ws_split (s : jsstring) :
  exists w, s = w ++ skip_ws s /\ blank w.
Proof.
  induction s as [|c t (w & E & B)]; cbn [skip_ws].
  - exists []. split; [reflexivity | constructor].
  - destruct (is_ws c) eqn:W.
    + exists (c :: w). split; [cbn; now f_equal | now constructor].
    + exists []. split; [reflexivity | constructor].
Qed.

Lemma skip_ws_head (s : jsstring) (c : char16) (t : jsstring) :
  skip_ws s = c :: t -> is_ws c = false.
Proof.
  induction s as [|x s IH]; cbn [skip_ws]; [discriminate|].
  destruct (is_ws x) eqn:W; [exact IH | now intros [= <- _]].
Qed.

Lemma skip_ws_blank (w t : jsstring) : blank w -> skip_ws (w ++ t) = skip_ws t.
Proof.
  induction 1 as [|c w W _ IH]; [reflexivity|].
  cbn [app skip_ws]. now rewrite W.
Qed.

Lemma skip_ws_solid (p r : jsstring) : solid p -> skip_ws (p ++ r) = p ++ r.
Proof. intros (c & t & -> & W). cbn [app skip_ws]. now rewrite W. Qed.

Lemma skip_ws_nil_blank (s : jsstring) : skip_ws s = [] -> blank s.
Proof.
  intros H. destruct (skip_ws_split s) as (w & E & B).
  rewrite H, app_nil_r in E. now subst.
Qed.

Lemma blank_no_delimiter (w : jsstring) : blank w -> no_delimiter w.
Proof.
  intros B. unfold no_delimiter, has_open, has_close.
  unfold blank in B. rewrite Forall_forall in B.
  split; intros [H|H]; apply B in H; discriminate H.
Qed.

(** *** Leaves: literals, strings, numbers *)

Lemma strip_prefix_split (lit s r : jsstring) :
  strip_prefix lit s = Some r -> s = lit ++ r.
Proof.
  revert s. induction lit as [|a lit IH]; intros [|b s]; cbn [strip_prefix];
    try discriminate; [now intros [= <-] | now intros [= <-] |].
  destruct (N.eqb_spec a b) as [->|]; [|discriminate].
  intros H. cbn. f_equal. now apply IH.
Qed.

Lemma strip_prefix_app (lit r : jsstring) : strip_prefix lit (lit ++ r) = Some r.
Proof.
  induction lit as [|a lit IH]; cbn [app strip_prefix]; [now destruct r|].
  now rewrite N.eqb_refl.
Qed.

Lemma parse_chars_local (s k r : jsstring) :
  parse_chars s = Some (k, r) ->
  exists p, s = p ++ r /\ p <> [] /\
            forall r2, parse_chars (p ++ r2) = Some (k, r2).
Proof.
  remember (List.length s) as n eqn:Hn. revert s Hn k r.
  induction n as [n IH] using lt_wf_ind. intros s -> k r.
  assert (IH' : forall t, (List.length t < List.length s)%nat ->
            forall k r, parse_chars t = Some (k, r) ->
            exists p, t = p ++ r /\ p <> [] /\
                      forall r2, parse_chars (p ++ r2) = Some (k, r2))
    by (intros t Ht; now apply (IH (List.length t))).
  clear IH; rename IH' into IH.
  destruct s as [|c t]; cbn [parse_chars]; [discriminate|].
  destruct (N.eqb c 34) eqn:Q.
  - intros [= <- <-]. exists [c]. split; [reflexivity|]. split; [discriminate|].
    intros r2. cbn [app parse_chars]. now rewrite Q.
  - destruct (N.eqb c 92) eqn:B.
    + destruct t as [|e t1]; [discriminate|].
      destruct (N.eqb e 117) eqn:U.
      * destruct t1 as [|h1 [|h2 [|h3 [|h4 t2]]]]; try discriminate.
        destruct (hex4 h1 h2 h3 h4) as [u|] eqn:Hx; [|discriminate].
        destruct (parse_chars t2) as [[k' r']|] eqn:P; [|discriminate].
        intros [= <- <-].
        destruct (IH t2 ltac:(cbn; lia) _ _ P) as (p & -> & _ & Hp).
        exists (c :: e :: h1 :: h2 :: h3 :: h4 :: p).
        split; [reflexivity|]. split; [discriminate|].
        intros r2. cbn [app parse_chars]. now rewrite Q, B, U, Hx, Hp.
      * destruct (unescape e) as [u|] eqn:Ue; [|discriminate].
        destruct (parse_chars t1) as [[k' r']|] eqn:P; [|discriminate].
        intros [= <- <-].
        destruct (IH t1 ltac:(cbn; lia) _ _ P) as (p & -> & _ & Hp).
        exists (c :: e :: p).
        split; [reflexivity|]. split; [discriminate|].
        intros r2. cbn [app parse_chars]. now rewrite Q, B, U, Ue, Hp.
    + destruct (N.ltb c 32) eqn:L; [discriminate|].
      destruct (parse_chars t) as [[k' r']|] eqn:P; [|discriminate].
      intros [= <- <-].
      destruct (IH t ltac:(cbn; lia) _ _ P) as (p & -> & _ & Hp).
      exists (c :: p).
      split; [reflexivity|]. split; [discriminate|].
      intros r2. cbn [app parse_chars]. now rewrite Q, B, L, Hp.
Qed.

Lemma take_digits_local (s : jsstring) (ds : list N) (r : jsstring) :
  take_digits s = (ds, r) ->
  exists p, s = p ++ r /\ List.length p = List.length ds /\
            forall r2, hd_error r2 = hd_error r ->
                       take_digits (p ++ r2) = (ds, r2).
Proof.
  revert ds r. induction s as [|c t IH]; intros ds r; cbn [take_digits].
  - intros [= <- <-]. exists []. repeat split.
    intros [|x r2]; [reflexivity | discriminate].
  - destruct (is_digit c) eqn:D.
    + destruct (take_digits t) as [ds' r'] eqn:T. intros [= <- <-].
      destruct (IH _ _ eq_refl) as (p & -> & L & Hp).
      exists (c :: p). split; [reflexivity|]. split; [cbn; now rewrite L|].
      intros r2 H. cbn [app take_digits]. now rewrite D, (Hp r2 H).
    + intros [= <- <-]. exists []. repeat split.
      intros [|x r2]; cbn; [reflexivity|].
      intros [= ->]. now rewrite D.
Qed.

Lemma digit_not_ws (c : char16) : is_digit c = true -> is_ws c = false.
Proof.
  unfold is_digit, is_ws. rewrite andb_true_iff, !N.leb_le. intros [L U].
  repeat (apply orb_false_intro); apply N.eqb_neq; lia.
Qed.

Lemma parse_int_local (s : jsstring) (ds : list N) (r : jsstring) :
  parse_int s = Some (ds, r) ->
  exists p, s = p ++ r /\ solid p /\
            forall r2, hd_error r2 = hd_error r ->
                       parse_int (p ++ r2) = Some (ds, r2).
Proof.
  unfold parse_int. destruct s as [|c t]; [discriminate|].
  destruct (N.eqb_spec c 48) as [->|Z0].
  - intros [= <- <-]. exists [48%N]. split; [reflexivity|].
    split; [now exists 48%N, [] | reflexivity].
  - destruct (is_digit c) eqn:D; [|discriminate]. intros H.
    assert (T : take_digits (c :: t) = (ds, r)) by congruence. clear H.
    destruct (take_digits_local _ _ _ T) as (p & E & L & Hp).
    destruct p as [|c' p'].
    + exfalso. cbn [take_digits] in T. rewrite D in T.
      destruct (take_digits t). injection T as <- _. discriminate L.
    + injection E as <- E. exists (c :: p'). split; [cbn; now f_equal|].
      split; [exists c, p'; split; [reflexivity | now apply digit_not_ws]|].
      intros r2 H. cbn [app]. apply N.eqb_neq in Z0. rewrite Z0, D.
      f_equal. now apply Hp.
Qed.

Lemma parse_frac_local (s : jsstring) (ds : list N) (r : jsstring) :
  parse_frac s = Some (ds, r) ->
  exists p, s = p ++ r /\
            forall r2, hd_error r2 = hd_error r ->
                       parse_frac (p ++ r2) = Some (ds, r2).
Proof.
  unfold parse_frac. destruct s as [|c t].
  - intros [= <- <-]. exists []. split; [reflexivity|].
    intros [|x r2]; [reflexivity | discriminate].
  - destruct (N.eqb c 46) eqn:Dot.
    + destruct (take_digits t) as [[|d ds'] r'] eqn:T; [discriminate|].
      intros [= <- <-].
      destruct (take_digits_local _ _ _ T) as (p & -> & _ & Hp).
      exists (c :: p). split; [reflexivity|].
      intros r2 H. cbn [app]. now rewrite Dot, (Hp r2 H).
    + intros [= <- <-]. exists []. split; [reflexivity|].
      intros [|x r2]; [discriminate|]. cbn. intros [= ->]. now rewrite Dot.
Qed.

Lemma parse_exp_local (s : jsstring) (e : Z) (r : jsstring) :
  parse_exp s = Some (e, r) ->
  exists p, s = p ++ r /\
            forall r2, hd_error r2 = hd_error r ->
                       parse_exp (p ++ r2) = Some (e, r2).
Proof.
  unfold parse_exp. destruct s as [|c t].
  - intros [= <- <-]. exists []. split; [reflexivity|].
    intros [|x r2]; [reflexivity | discriminate].
  - destruct (N.eqb c 101 || N.eqb c 69)%bool eqn:Ee.
    + destruct t as [|d u].
      * cbn. discriminate.
      * destruct (N.eqb d 45) eqn:Minus; [|destruct (N.eqb d 43) eqn:Plus].
        -- destruct (take_digits u) as [[|x ds'] r'] eqn:T; [discriminate|].
           intros [= <- <-].
           destruct (take_digits_local _ _ _ T) as (p & -> & _ & Hp).
           exists (c :: d :: p). split; [reflexivity|].
           intros r2 H. cbn [app]. now rewrite Ee, Minus, (Hp r2 H).
        -- destruct (take_digits u) as [[|x ds'] r'] eqn:T; [discriminate|].
           intros [= <- <-].
           destruct (take_digits_local _ _ _ T) as (p & -> & _ & Hp).
           exists (c :: d :: p). split; [reflexivity|].
           intros r2 H. cbn [app]. now rewrite Ee, Minus, Plus, (Hp r2 H).
        -- destruct (take_digits (d :: u)) as [[|x ds'] r'] eqn:T; [discriminate|].
           intros [= <- <-].
           destruct (take_digits_local _ _ _ T) as (p & E & L & Hp).
           destruct p as [|d' p']; [discriminate L|]. injection E as <- ->.
           exists (c :: d :: p'). split; [reflexivity|].
           intros r2 H. cbn [app]. rewrite Ee, Minus, Plus.
           change (d :: p' ++ r2) with ((d :: p') ++ r2). now rewrite (Hp r2 H).
    + intros [= <- <-]. exists []. split; [reflexivity|].
      intros [|x r2]; [discriminate|]. cbn. intros [= ->]. now rewrite Ee.
Qed.

Lemma parse_number_local (s : jsstring) (n : Num) (r : jsstring) :
  parse_number s = Some (n, r) ->
  exists p, s = p ++ r /\ solid p /\
            forall r2, hd_error r2 = hd_error r ->
                       parse_number (p ++ r2) = Some (n, r2).
Proof.
  assert (G : forall negative s1,
    match parse_int s1 with
    | None => None
    | Some (int_ds, s2) =>
        match parse_frac s2 with
        | None => None
        | Some (frac_ds, s3) =>
            match parse_exp s3 with
            | None => None
            | Some (e, s4) => Some (make_num negative int_ds frac_ds e, s4)
            end
        end
    end = Some (n, r) ->
    exists p, s1 = p ++ r /\ solid p /\
      forall r2, hd_error r2 = hd_error r ->
        match parse_int (p ++ r2) with
        | None => None
        | Some (int_ds, s2) =>
            match parse_frac s2 with
            | None => None
            | Some (frac_ds, s3) =>
                match parse_exp s3 with
                | None => None
                | Some (e, s4) => Some (make_num negative int_ds frac_ds e, s4)
                end
            end
        end = Some (n, r2)).
  { intros negative s1.
    destruct (parse_int s1) as [[ids s2]|] eqn:I; [|discriminate].
    destruct (parse_frac s2) as [[fds s3]|] eqn:F; [|discriminate].
    destruct (parse_exp s3) as [[e s4]|] eqn:X; [|discriminate].
    intros [= <- <-].
    destruct (parse_int_local _ _ _ I) as (p1 & -> & S1 & H1).
    destruct (parse_frac_local _ _ _ F) as (p2 & -> & H2).
    destruct (parse_exp_local _ _ _ X) as (p3 & -> & H3).
    exists (p1 ++ p2 ++ p3). split; [now rewrite <- !app_assoc|].
    split; [destruct S1 as (c & t & -> & W); now exists c, (t ++ p2 ++ p3)|].
    intros r2 H. rewrite <- !app_assoc.
    rewrite (H1 (p2 ++ p3 ++ r2)) by (now do 2 apply hd_error_app).
    rewrite (H2 (p3 ++ r2)) by (now apply hd_error_app).
    now rewrite (H3 r2 H). }
  unfold parse_number. destruct s as [|c t].
  - intros H. destruct (G false [] H) as (p & E & (c & t & -> & _) & _).
    discriminate E.
  - destruct (N.eqb c 45) eqn:Minus.
    + intros H. destruct (G true t H) as (p & -> & _ & Hp).
      exists (c :: p). split; [reflexivity|].
      split; [exists c, p; split; [reflexivity|] |].
      * apply N.eqb_eq in Minus. now subst.
      * intros r2 H2. cbn [app]. rewrite Minus. now apply Hp.
    + intros H. destruct (G false (c :: t) H) as (p & E & Sp & Hp).
      exists p. split; [assumption|]. split; [assumption|].
      intros r2 H2. destruct Sp as (c' & t' & -> & W).
      injection E as <- _. cbn [app]. rewrite Minus. now apply (Hp r2).
Qed.

(** *** Values, members and elements *)

Lemma solid_cons (c : char16) (t : jsstring) : is_ws c = false -> solid (c :: t).
Proof. intros W. now exists c, t. Qed.

Lemma solid_app (p r : jsstring) : solid p -> solid (p ++ r).
Proof. intros (c & t & -> & W). now exists c, (t ++ r). Qed.

Lemma skip_to (w x : jsstring) : blank w -> solid x -> skip_ws (w ++ x) = x.
Proof.
  intros B S. rewrite (skip_ws_blank w x B).
  rewrite <- (app_nil_r x). now apply skip_ws_solid.
Qed.

(** What [skip_ws] leaves, when it leaves anything, follows a blank prefix
    and is solid. *)
Lemma skip_ws_found (s : jsstring) (c : char16) (t : jsstring) :
  skip_ws s = c :: t ->
  exists w, s = w ++ c :: t /\ blank w /\ is_ws c = false.
Proof.
  intros H. destruct (skip_ws_split s) as (w & E & B). rewrite H in E.
  exists w. repeat split; try assumption. now apply skip_ws_head in H.
Qed.

Lemma skip_ws_found_solid (s x : jsstring) :
  skip_ws s = x -> solid x -> exists w, s = w ++ x /\ blank w.
Proof.
  intros H _. destruct (skip_ws_split s) as (w & E & B). rewrite H in E.
  now exists w.
Qed.

Ltac norm := repeat (progress (cbn [app]; rewrite <- ?app_assoc)).
Ltac lens :=
  cbn [List.length app] in *;
  repeat (match goal with
          | H : context [List.length (_ ++ _)] |- _ => rewrite length_app in H
          | |- context [List.length (_ ++ _)] => rewrite length_app
          end; cbn [List.length] in *);
  lia.

Section Step.

Variable f : nat.
Hypothesis IHv : value_local f.
Hypothesis IHm : members_local f.
Hypothesis IHe : elements_local f.

Lemma value_step : value_local (S f).
Proof.
  intros s v r H. cbn [parse_value] in H.
  destruct s as [|c t]; [discriminate|].
  destruct (N.eqb c 123) eqn:E1.
  { apply N.eqb_eq in E1. subst c.
    destruct (skip_ws t) as [|d r0] eqn:W; [discriminate|].
    destruct (skip_ws_found _ _ _ W) as (w & -> & Bw & Wd).
    destruct (N.eqb d 125) eqn:E2.
    - apply N.eqb_eq in E2. subst d. injection H as <- <-.
      exists (123%N :: w ++ [125%N]). split; [now norm|].
      split; [now apply solid_cons|].
      split; [intros _; exists 123%N, w, 125%N; repeat split; now left|].
      intros [|g] r2 L _; [cbn in L; lia|].
      norm. cbn [parse_value N.eqb Pos.eqb].
      now rewrite (skip_to w _ Bw (solid_cons _ _ Wd)).
    - destruct (IHm _ _ _ _ H) as (q & cl & E & C & Sq & Cv & Hq).
      exists (123%N :: w ++ q ++ [cl]). split; [norm; now rewrite E|].
      split; [now apply solid_cons|].
      split; [intros _; exists 123%N, (w ++ q), cl;
              repeat split; [now left | assumption | now norm]|].
      intros [|g] r2 L _; [cbn in L; lia|].
      norm. cbn [parse_value N.eqb Pos.eqb].
      rewrite (skip_to w _ Bw (solid_app _ _ Sq)).
      destruct q as [|d' q']; [destruct Sq as (? & ? & ? & _); discriminate|].
      injection E as <- E. cbn [app]. rewrite E2.
      apply (Hq g r2). lens. }
  destruct (N.eqb c 91) eqn:E2.
  { apply N.eqb_eq in E2. subst c.
    destruct (skip_ws t) as [|d r0] eqn:W; [discriminate|].
    destruct (skip_ws_found _ _ _ W) as (w & -> & Bw & Wd).
    destruct (N.eqb d 93) eqn:E3.
    - apply N.eqb_eq in E3. subst d. injection H as <- <-.
      exists (91%N :: w ++ [93%N]). split; [now norm|].
      split; [now apply solid_cons|].
      split; [intros _; exists 91%N, w, 93%N; repeat split; now right|].
      intros [|g] r2 L _; [cbn in L; lia|].
      norm. cbn [parse_value N.eqb Pos.eqb].
      now rewrite (skip_to w _ Bw (solid_cons _ _ Wd)).
    - destruct (IHe _ _ _ _ H) as (q & cl & E & C & Sq & Cv & Hq).
      exists (91%N :: w ++ q ++ [cl]). split; [norm; now rewrite E|].
      split; [now apply solid_cons|].
      split; [intros _; exists 91%N, (w ++ q), cl;
              repeat split; [now right | assumption | now norm]|].
      intros [|g] r2 L _; [cbn in L; lia|].
      norm. cbn [parse_value N.eqb Pos.eqb].
      rewrite (skip_to w _ Bw (solid_app _ _ Sq)).
      destruct q as [|d' q']; [destruct Sq as (? & ? & ? & _); discriminate|].
      injection E as <- E. cbn [app]. rewrite E3.
      apply (Hq g r2). lens. }
  destruct (N.eqb c 34) eqn:E3.
  { destruct (parse_chars t) as [[k r1]|] eqn:P; [|discriminate].
    injection H as <- <-.
    destruct (parse_chars_local _ _ _ P) as (p & -> & _ & Hp).
    exists (c :: p). split; [reflexivity|].
    split; [apply solid_cons; apply N.eqb_eq in E3; now subst|].
    split; [intros []|].
    intros [|g] r2 L _; [cbn in L; lia|].
    cbn [app parse_value]. now rewrite E1, E2, E3, Hp. }
  destruct (N.eqb c 116) eqn:E4.
  { destruct (strip_prefix (str "rue") t) as [r1|] eqn:P; [|discriminate].
    injection H as <- <-. apply strip_prefix_split in P. subst t.
    exists (c :: str "rue"). split; [reflexivity|].
    split; [apply solid_cons; apply N.eqb_eq in E4; now subst|].
    split; [intros []|].
    intros [|g] r2 L _; [cbn in L; lia|].
    cbn [app parse_value]. now rewrite E1, E2, E3, E4, strip_prefix_app. }
  destruct (N.eqb c 102) eqn:E5.
  { destruct (strip_prefix (str "alse") t) as [r1|] eqn:P; [|discriminate].
    injection H as <- <-. apply strip_prefix_split in P. subst t.
    exists (c :: str "alse"). split; [reflexivity|].
    split; [apply solid_cons; apply N.eqb_eq in E5; now subst|].
    split; [intros []|].
    intros [|g] r2 L _; [cbn in L; lia|].
    cbn [app parse_value]. now rewrite E1, E2, E3, E4, E5, strip_prefix_app. }
  destruct (N.eqb c 110) eqn:E6.
  { destruct (strip_prefix (str "ull") t) as [r1|] eqn:P; [|discriminate].
    injection H as <- <-. apply strip_prefix_split in P. subst t.
    exists (c :: str "ull"). split; [reflexivity|].
    split; [apply solid_cons; apply N.eqb_eq in E6; now subst|].
    split; [intros []|].
    intros [|g] r2 L _; [cbn in L; lia|].
    cbn [app parse_value].
    now rewrite E1, E2, E3, E4, E5, E6, strip_prefix_app. }
  destruct (parse_number (c :: t)) as [[n r1]|] eqn:P; [|discriminate].
  injection H as <- <-.
  destruct (parse_number_local _ _ _ P) as (p & E & Sp & Hp).
  exists p. split; [assumption|]. split; [assumption|]. split; [intros []|].
  intros [|g] r2 L [[]|Hd]; [destruct Sp as (? & ? & -> & _); cbn in L; lia|].
  destruct p as [|c' p']; [destruct Sp as (? & ? & ? & _); discriminate|].
  injection E as <- E. cbn [app parse_value]. rewrite E1, E2, E3, E4, E5, E6.
  change (c :: p' ++ r2) with ((c :: p') ++ r2). now rewrite (Hp r2 Hd).
Qed.

Lemma elements_step : elements_local (S f).
Proof.
  intros acc s v r H. cbn [parse_elements] in H.
  destruct (parse_value f s) as [[v1 r1]|] eqn:PV; [|discriminate].
  destruct (IHv _ _ _ PV) as (pv & -> & Spv & _ & Hpv).
  destruct (skip_ws r1) as [|e r2] eqn:W; [discriminate|].
  destruct (skip_ws_found _ _ _ W) as (w & -> & Bw & We).
  destruct (N.eqb e 44) eqn:E1.
  - destruct (IHe _ _ _ _ H) as (q & cl & E & C & Sq & Cv & Hq).
    destruct (skip_ws_found_solid _ _ E (solid_app _ _ Sq)) as (w' & -> & Bw').
    exists (pv ++ w ++ e :: w' ++ q), cl. split; [now norm|].
    split; [assumption|]. split; [now apply solid_app|]. split; [assumption|].
    intros [|g] x L; [lia|]. norm. cbn [parse_elements].
    rewrite (Hpv g (w ++ e :: w' ++ q ++ cl :: x))
      by (lens || (right; now apply hd_error_app)).
    rewrite (skip_to w _ Bw (solid_cons _ _ We)), E1.
    rewrite (skip_to w' _ Bw' (solid_app _ _ Sq)).
    apply Hq. destruct Spv as (? & ? & -> & _). lens.
  - destruct (N.eqb e 93) eqn:E2; [|discriminate]. injection H as <- <-.
    exists (pv ++ w), e. split; [now norm|].
    split; [right; now apply N.eqb_eq in E2|].
    split; [now apply solid_app|]. split; [exact I|].
    intros [|g] x L; [lia|]. norm. cbn [parse_elements].
    rewrite (Hpv g (w ++ e :: x)) by (lens || (right; now apply hd_error_app)).
    now rewrite (skip_to w _ Bw (solid_cons _ _ We)), E1, E2.
Qed.

Lemma members_step : members_local (S f).
Proof.
  intros acc s v r H. cbn [parse_members] in H.
  destruct s as [|c t]; [discriminate|].
  destruct (N.eqb c 34) eqn:Q; [|discriminate].
  assert (Wc : is_ws c = false) by (apply N.eqb_eq in Q; now subst).
  destruct (parse_chars t) as [[k r1]|] eqn:P; [|discriminate].
  destruct (parse_chars_local _ _ _ P) as (pk & -> & _ & Hpk).
  destruct (skip_ws r1) as [|d r2] eqn:W1; [discriminate|].
  destruct (skip_ws_found _ _ _ W1) as (w1 & -> & B1 & Wd).
  destruct (N.eqb d 58) eqn:Colon; [|discriminate].
  destruct (parse_value f (skip_ws r2)) as [[v1 r3]|] eqn:PV; [|discriminate].
  destruct (IHv _ _ _ PV) as (pv & E2 & Spv & _ & Hpv).
  destruct (skip_ws_found_solid _ _ E2 (solid_app _ _ Spv)) as (w2 & -> & B2).
  destruct (skip_ws r3) as [|e r4] eqn:W3; [discriminate|].
  destruct (skip_ws_found _ _ _ W3) as (w3 & -> & B3 & We).
  destruct (N.eqb e 44) eqn:E3.
  - destruct (IHm _ _ _ _ H) as (q & cl & E & C & Sq & Cv & Hq).
    destruct (skip_ws_found_solid _ _ E (solid_app _ _ Sq)) as (w4 & -> & B4).
    exists (c :: pk ++ w1 ++ d :: w2 ++ pv ++ w3 ++ e :: w4 ++ q), cl.
    split; [now norm|]. split; [assumption|].
    split; [now apply solid_cons|]. split; [assumption|].
    intros [|g] x L; [lia|]. norm. cbn [parse_members].
    rewrite Q, Hpk, (skip_to w1 _ B1 (solid_cons _ _ Wd)), Colon.
    rewrite (skip_to w2 _ B2 (solid_app _ _ Spv)).
    rewrite (Hpv g (w3 ++ e :: w4 ++ q ++ cl :: x))
      by (lens || (right; now apply hd_error_app)).
    rewrite (skip_to w3 _ B3 (solid_cons _ _ We)), E3.
    rewrite (skip_to w4 _ B4 (solid_app _ _ Sq)).
    apply Hq. lens.
  - destruct (N.eqb e 125) eqn:E4; [|discriminate]. injection H as <- <-.
    exists (c :: pk ++ w1 ++ d :: w2 ++ pv ++ w3), e.
    split; [now norm|]. split; [left; now apply N.eqb_eq in E4|].
    split; [now apply solid_cons|]. split; [exact I|].
    intros [|g] x L; [lia|]. norm. cbn [parse_members].
    rewrite Q, Hpk, (skip_to w1 _ B1 (solid_cons _ _ Wd)), Colon.
    rewrite (skip_to w2 _ B2 (solid_app _ _ Spv)).
    rewrite (Hpv g (w3 ++ e :: x)) by (lens || (right; now apply hd_error_app)).
    now rewrite (skip_to w3 _ B3 (solid_cons _ _ We)), E3, E4.
Qed.

End Step.

Lemma parsers_local (f : nat) :
  value_local f /\ members_local f /\ elements_local f.
Proof.
  induction f as [|f (IHv & IHm & IHe)].
  - repeat split; intros ? *; discriminate.
  - split; [|split].
    + now apply value_step.
    + now apply members_step.
    + now apply elements_step.
Qed.

(** *** Consequences *)

(** The fuel [parse] gives, the length of the text and one more, is enough:
    whatever any amount of fuel can parse, [parse] parses. *)
Lemma parse_value_fuel (f : nat) (s : jsstring) (v : JSValue) (r : jsstring) :
  parse_value f s = Some (v, r) ->
  forall f', (List.length s <= f')%nat -> parse_value f' s = Some (v, r).
Proof.
  intros H f' L.
  destruct (proj1 (parsers_local f) _ _ _ H) as (p & -> & _ & _ & Hp).
  apply Hp; [lens | now right].
Qed.

Lemma parse_complete (f : nat) (text : jsstring) (v : JSValue) (r : jsstring) :
  parse_value f (skip_ws text) = Some (v, r) -> skip_ws r = [] ->
  parse text = Normal v.
Proof.
  intros H B. unfold parse.
  rewrite (parse_value_fuel _ _ _ _ H), B; [reflexivity|].
  destruct (skip_ws_split text) as (w & E & _).
  rewrite E at 2. rewrite length_app. lia.
Qed.

(** Conversely a [SyntaxError] is final: no amount of fuel reads the text as
    one value followed by whitespace only. *)
Lemma parse_failure_final (text : jsstring) (e : Thrown) :
  parse text = Throw e ->
  forall f v r, parse_value f (skip_ws text) = Some (v, r) -> skip_ws r <> [].
Proof.
  intros H f v r P B. now rewrite (parse_complete f text v r P B) in H.
Qed.

(** A text that parses to an object or an array is a delimited text between
    two blanks, and the delimited text alone parses to the same value. *)
Lemma parse_container_core (j : jsstring) (v : JSValue) :
  parse j = Normal v -> is_container v ->
  exists w1 core w2,
    j = w1 ++ core ++ w2 /\ blank w1 /\ blank w2 /\
    delimited core /\ parse core = Normal v.
Proof.
  unfold parse at 1. intros H Cv.
  destruct (parse_value _ (skip_ws j)) as [[v' r]|] eqn:P; [|discriminate].
  destruct (skip_ws r) eqn:B; [|discriminate]. injection H as ->.
  destruct (proj1 (parsers_local _) _ _ _ P) as (p & E & Sp & Dp & Hp).
  destruct (skip_ws_split j) as (w1 & Ej & B1).
  exists w1, p, r. split; [now rewrite <- E|]. split; [assumption|].
  split; [now apply skip_ws_nil_blank|]. split; [now apply Dp|].
  apply (parse_complete (List.length p) p v []); [|reflexivity].
  pose proof (skip_ws_solid p [] Sp) as K. rewrite app_nil_r in K. rewrite K.
  pose proof (Hp (List.length p) [] (le_n _) (or_introl Cv)) as G.
  now rewrite app_nil_r in G.
Qed.

End JSONFacts.

(** ** The two indices *)

Lemma has_open_indices (s : jsstring) :
  has_open s <->
  ((indexOf s (ch "{") =? -1) && (indexOf s (ch "[") =? -1))%bool = false.
Proof.
  unfold has_open. rewrite andb_false_iff, !Z.eqb_neq.
  pose proof (indexOf_absent (ch "{") s). pose proof (indexOf_absent (ch "[") s).
  destruct (in_dec N.eq_dec (ch "{") s); destruct (in_dec N.eq_dec (ch "[") s);
    tauto.
Qed.

Lemma has_close_endIndex (s : jsstring) : has_close s <-> endIndex s <> -1.
Proof.
  unfold has_close, endIndex.
  pose proof (lastIndexOf_absent (ch "}") s) as H1.
  pose proof (lastIndexOf_absent (ch "]") s) as H2.
  pose proof (lastIndexOf_range (ch "}") s).
  pose proof (lastIndexOf_range (ch "]") s).
  destruct (in_dec N.eq_dec (ch "}") s); destruct (in_dec N.eq_dec (ch "]") s);
    destruct (Z.eq_dec (lastIndexOf s (ch "}")) (-1));
    destruct (Z.eq_dec (lastIndexOf s (ch "]")) (-1)); intuition lia.
Qed.

Lemma has_open_dec (s : jsstring) : {has_open s} + {~ has_open s}.
Proof.
  unfold has_open.
  destruct (in_dec N.eq_dec (ch "{") s); [left; tauto|].
  destruct (in_dec N.eq_dec (ch "[") s); [left; tauto | right; tauto].
Qed.

Lemma has_close_dec (s : jsstring) : {has_close s} + {~ has_close s}.
Proof.
  unfold has_close.
  destruct (in_dec N.eq_dec (ch "}") s); [left; tauto|].
  destruct (in_dec N.eq_dec (ch "]") s); [left; tauto | right; tauto].
Qed.

(** The start index points at an opening delimiter. *)
Lemma startIndex_points (s : jsstring) :
  has_open s ->
  0 <= startIndex s < Z.of_nat (List.length s) /\
  exists o, is_open o /\ nth_error s (Z.to_nat (startIndex s)) = Some o.
Proof.
  intros H. apply has_open_indices in H. unfold startIndex.
  pose proof (indexOf_range (ch "{") s) as R1.
  pose proof (indexOf_range (ch "[") s) as R2.
  pose proof (indexOf_nth (ch "{") s) as N1.
  pose proof (indexOf_nth (ch "[") s) as N2.
  destruct (Z.eqb_spec (indexOf s (ch "{")) (-1)) as [E1|E1];
    destruct (Z.eqb_spec (indexOf s (ch "[")) (-1)) as [E2|E2];
    try discriminate H.
  - split; [lia|]. exists (ch "["). split; [now right | auto].
  - split; [lia|]. exists (ch "{"). split; [now left | auto].
  - split; [lia|].
    destruct (Z.min_spec (indexOf s (ch "{")) (indexOf s (ch "["))) as [[_ ->]|[_ ->]].
    + exists (ch "{"). split; [now left | auto].
    + exists (ch "["). split; [now right | auto].
Qed.

(** The end index points at a closing delimiter. *)
Lemma endIndex_points (s : jsstring) :
  has_close s ->
  0 <= endIndex s < Z.of_nat (List.length s) /\
  exists c, is_close c /\ nth_error s (Z.to_nat (endIndex s)) = Some c.
Proof.
  intros H. apply has_close_endIndex in H. revert H. unfold endIndex.
  pose proof (lastIndexOf_range (ch "}") s) as R1.
  pose proof (lastIndexOf_range (ch "]") s) as R2.
  pose proof (lastIndexOf_nth (ch "}") s) as N1.
  pose proof (lastIndexOf_nth (ch "]") s) as N2.
  intros H. split; [lia|].
  destruct (Z.max_spec (lastIndexOf s (ch "}")) (lastIndexOf s (ch "]")))
    as [[L E]|[L E]]; rewrite E in *.
  - exists (ch "]"). split; [now right | auto].
  - exists (ch "}"). split; [now left | auto].
Qed.

(** In order, the extracted substring is the span between the indices. *)
Lemma jsonSubString_span (s : jsstring) :
  has_open s -> startIndex s <= endIndex s ->
  jsonSubString s = span s (startIndex s) (endIndex s).
Proof.
  intros Ho Hle.
  destruct (startIndex_points s Ho) as [Rs _].
  assert (Hc : has_close s) by (apply has_close_endIndex; lia).
  destruct (endIndex_points s Hc) as [Re _].
  unfold jsonSubString, span. rewrite substring_ordered by lia.
  do 2 f_equal. lia.
Qed.

(** Out of order, it is the text strictly between the two delimiters. *)
Lemma jsonSubString_between (s : jsstring) :
  has_open s -> has_close s -> endIndex s < startIndex s ->
  jsonSubString s = span s (endIndex s + 1) (startIndex s - 1).
Proof.
  intros Ho Hc Hlt.
  destruct (startIndex_points s Ho) as [Rs _].
  destruct (endIndex_points s Hc) as [Re _].
  unfold jsonSubString, span. rewrite substring_swapped by lia.
  do 2 f_equal. lia.
Qed.

(** ** The three ways through [robustJsonParse] *)

(** The function in terms of its locals. *)
Lemma robustJsonParse_unfold (s : jsstring) :
  robustJsonParse s =
  if ((indexOf s (ch "{") =? -1) && (indexOf s (ch "[") =? -1))%bool then
    throw (Error msg_no_json)
  else if endIndex s =? -1 then throw (Error msg_no_end)
  else parseOrReport s (jsonSubString s).
Proof. reflexivity. Qed.

Lemma robustJsonParse_no_open (s : jsstring) (c : Console) :
  ~ has_open s -> robustJsonParse s c = (c, Throw (Error msg_no_json)).
Proof.
  intros H. rewrite robustJsonParse_unfold.
  destruct (andb _ _) eqn:E; [reflexivity|].
  now apply has_open_indices in E.
Qed.

Lemma robustJsonParse_no_close (s : jsstring) (c : Console) :
  has_open s -> ~ has_close s ->
  robustJsonParse s c = (c, Throw (Error msg_no_end)).
Proof.
  intros Ho Hc. rewrite robustJsonParse_unfold.
  apply has_open_indices in Ho. rewrite Ho.
  destruct (Z.eqb_spec (endIndex s) (-1)) as [E|E]; [reflexivity|].
  now apply has_close_endIndex in E.
Qed.

Lemma robustJsonParse_parses (s : jsstring) :
  has_open s -> has_close s ->
  robustJsonParse s = parseOrReport s (jsonSubString s).
Proof.
  intros Ho Hc. rewrite robustJsonParse_unfold.
  apply has_open_indices in Ho. rewrite Ho.
  apply has_close_endIndex in Hc.
  destruct (Z.eqb_spec (endIndex s) (-1)) as [E|E]; [contradiction | reflexivity].
Qed.

Lemma parseOrReport_ok (raw sub : jsstring) (v : JSValue) (c : Console) :
  JSON.parse sub = Normal v -> parseOrReport raw sub c = (c, Normal v).
Proof.
  intros H. unfold parseOrReport, try_catch, lift. now rewrite H.
Qed.

Lemma JSON_parse_throws (text : jsstring) (e : Thrown) :
  JSON.parse text = Throw e -> e = SyntaxError.
Proof.
  unfold JSON.parse.
  destruct (JSON.parse_value _ _) as [[v r]|]; [destruct (JSON.skip_ws r)|];
    congruence.
Qed.

Lemma parseOrReport_fail (raw sub : jsstring) (e : Thrown) (c : Console) :
  JSON.parse sub = Throw e ->
  parseOrReport raw sub c =
  (c ++ failure_report raw sub, Throw (Error msg_unparsable)).
Proof.
  intros H. pose proof (JSON_parse_throws _ _ H) as ->.
  unfold parseOrReport, try_catch, lift, bind, console_error, throw.
  rewrite H. unfold failure_report. now rewrite <- !app_assoc.
Qed.

Lemma messages_distinct :
  msg_no_json <> msg_unparsable /\ msg_no_end <> msg_unparsable /\
  msg_no_json <> msg_no_end.
Proof. repeat split; intros H; vm_compute in H; discriminate H. Qed.

(** What [parseOrReport] can do: return with the console untouched, or
    report and throw the decode error. *)
Lemma parseOrReport_cases (raw sub : jsstring) (c : Console) :
  (exists v, JSON.parse sub = Normal v /\ parseOrReport raw sub c = (c, Normal v)) \/
  (JSON.parse sub = Throw SyntaxError /\
   parseOrReport raw sub c =
   (c ++ failure_report raw sub, Throw (Error msg_unparsable))).
Proof.
  destruct (JSON.parse sub) as [v|e] eqn:E.
  - left. exists v. split; [reflexivity | now apply parseOrReport_ok].
  - right. pose proof (JSON_parse_throws _ _ E) as ->.
    split; [reflexivity | now apply parseOrReport_fail with (e := SyntaxError)].
Qed.

(** The extraction errors are thrown by the two guards and by nothing
    else. *)
Lemma extraction_error_cases (s : jsstring) (c : Console) :
  fails_with ExtractionError (robustJsonParse s c) <->
  ~ has_open s \/ ~ has_close s.
Proof.
  split.
  - intros (e & He & Hk).
    destruct (has_open_dec s) as [Ho|Ho]; [|now left].
    destruct (has_close_dec s) as [Hc|Hc]; [|now right].
    exfalso. rewrite robustJsonParse_parses in He by assumption.
    destruct (parseOrReport_cases s (jsonSubString s) c)
      as [(v & _ & E) | (_ & E)]; rewrite E in He; cbn [snd] in He;
      [discriminate He|].
    injection He as <-.
    destruct messages_distinct as (D1 & D2 & _).
    destruct Hk as [K|K]; [apply D1 | apply D2]; congruence.
  - intros H. destruct (has_open_dec s) as [Ho|Ho].
    + destruct H as [H|H]; [contradiction|].
      rewrite robustJsonParse_no_close by assumption.
      eexists; split; [reflexivity | now right].
    + rewrite robustJsonParse_no_open by assumption.
      eexists; split; [reflexivity | now left].
Qed.

(** ** Payloads inside prose *)

Lemma startIndex_after_prose (pre t : jsstring) (o : char16) :
  ~ has_open pre -> is_open o ->
  startIndex (pre ++ o :: t) = Z.of_nat (List.length pre).
Proof.
  intros Hp Ho. unfold has_open in Hp. unfold startIndex.
  assert (P1 : ~ In (ch "{") pre) by tauto.
  assert (P2 : ~ In (ch "[") pre) by tauto.
  pose proof (indexOf_skip (ch "{") pre (o :: t) P1) as S1.
  pose proof (indexOf_skip (ch "[") pre (o :: t) P2) as S2.
  pose proof (indexOf_range (ch "{") (o :: t)) as R1.
  pose proof (indexOf_range (ch "[") (o :: t)) as R2.
  destruct Ho as [-> | ->].
  - rewrite (indexOf_first (ch "{") pre t P1). rewrite S2.
    destruct (Z.eqb_spec (Z.of_nat (List.length pre)) (-1)); [lia|].
    destruct (Z.eqb_spec (indexOf (ch "{" :: t) (ch "[")) (-1)); cbn [Z.eqb]; [reflexivity|].
    destruct (Z.eqb_spec (Z.of_nat (List.length pre) + indexOf (ch "{" :: t) (ch "[")) (-1)); lia.
  - rewrite (indexOf_first (ch "[") pre t P2). rewrite S1.
    destruct (Z.eqb_spec (indexOf (ch "[" :: t) (ch "{")) (-1)); cbn [Z.eqb]; [reflexivity|].
    destruct (Z.eqb_spec (Z.of_nat (List.length pre) + indexOf (ch "[" :: t) (ch "{")) (-1)); [lia|].
    destruct (Z.eqb_spec (Z.of_nat (List.length pre)) (-1)); lia.
Qed.

Lemma endIndex_before_prose (s post : jsstring) (cl : char16) :
  ~ has_close post -> is_close cl ->
  endIndex (s ++ cl :: post) = Z.of_nat (List.length s).
Proof.
  intros Hp Hc. unfold has_close in Hp. unfold endIndex.
  assert (P1 : ~ In (ch "}") post) by tauto.
  assert (P2 : ~ In (ch "]") post) by tauto.
  pose proof (lastIndexOf_range (ch "}") s) as R1.
  pose proof (lastIndexOf_range (ch "]") s) as R2.
  destruct Hc as [-> | ->].
  - rewrite (lastIndexOf_last (ch "}") s post P1).
    change (s ++ ch "}" :: post) with (s ++ [ch "}"] ++ post).
    rewrite app_assoc, (lastIndexOf_skip (ch "]") _ post P2).
    rewrite (lastIndexOf_skip (ch "]") s [ch "}"]); [lia|].
    cbn. intros [H|[]]. discriminate H.
  - rewrite (lastIndexOf_last (ch "]") s post P2).
    change (s ++ ch "]" :: post) with (s ++ [ch "]"] ++ post).
    rewrite app_assoc, (lastIndexOf_skip (ch "}") _ post P1).
    rewrite (lastIndexOf_skip (ch "}") s [ch "]"]); [lia|].
    cbn. intros [H|[]]. discriminate H.
Qed.

Lemma jsonSubString_in_prose (pre j post : jsstring) :
  ~ has_open pre -> ~ has_close post -> delimited j ->
  jsonSubString (pre ++ j ++ post) = j.
Proof.
  intros Hpre Hpost (o & mid & cl & Ho & Hc & ->).
  unfold jsonSubString.
  replace (startIndex _) with (Z.of_nat (List.length pre)).
  2:{ cbn [app]. symmetry. now apply startIndex_after_prose. }
  replace (endIndex _ + 1)
    with (Z.of_nat (List.length pre + List.length (o :: mid ++ [cl]))).
  - apply substring_middle.
  - replace (pre ++ (o :: mid ++ [cl]) ++ post)
      with ((pre ++ o :: mid) ++ cl :: post)
      by (cbn [app]; now rewrite <- !app_assoc).
    rewrite endIndex_before_prose by assumption.
    cbn [List.length]. rewrite !length_app. cbn [List.length]. lia.
Qed.

Lemma has_open_app (a b : jsstring) :
  has_open (a ++ b) <-> has_open a \/ has_open b.
Proof. unfold has_open. rewrite !in_app_iff. tauto. Qed.

Lemma has_close_app (a b : jsstring) :
  has_close (a ++ b) <-> has_close a \/ has_close b.
Proof. unfold has_close. rewrite !in_app_iff. tauto. Qed.

Lemma delimited_has_open (pre j post : jsstring) :
  delimited j -> has_open (pre ++ j ++ post).
Proof.
  intros (o & mid & cl & [-> | ->] & _ & ->); [left | right];
    apply in_or_app; right; now left.
Qed.

Lemma delimited_has_close (pre j post : jsstring) :
  delimited j -> has_close (pre ++ j ++ post).
Proof.
  intros (o & mid & cl & _ & [-> | ->] & ->); [left | right];
    apply in_or_app; right; apply in_or_app; left; right;
    apply in_or_app; right; now left.
Qed.

Lemma extract_payload_in_prose (pre j post : jsstring) (v : JSValue) (c : Console) :
  ~ has_open pre -> ~ has_close post -> delimited j ->
  JSON.parse j = Normal v ->
  robustJsonParse (pre ++ j ++ post) c = (c, Normal v).
Proof.
  intros Hpre Hpost Hj Hv.
  rewrite robustJsonParse_parses
    by (now apply delimited_has_open || now apply delimited_has_close).
  rewrite jsonSubString_in_prose by assumption.
  now apply parseOrReport_ok.
Qed.

(** ** The extracted substring, in order and out of order *)

Lemma span_endpoints (s : jsstring) (i j : nat) (a b : char16) :
  (i <= j)%nat -> nth_error s i = Some a -> nth_error s j = Some b ->
  exists mid,
    span s (Z.of_nat i) (Z.of_nat j) = mid ++ [b] /\
    first_unit (mid ++ [b]) = Some a /\
    List.length mid = (j - i)%nat.
Proof.
  intros Hij Ha Hb.
  destruct (nth_error_split s j Hb) as (l1 & l2 & -> & Hl).
  unfold span. rewrite Nat2Z.id.
  replace (Z.to_nat (Z.of_nat j - Z.of_nat i + 1)) with ((j - i) + 1)%nat by lia.
  rewrite skipn_app.
  replace (i - List.length l1)%nat with 0%nat by lia. cbn [skipn].
  assert (Hlen : List.length (skipn i l1) = (j - i)%nat)
    by (rewrite length_skipn; lia).
  rewrite firstn_app, Hlen, firstn_all2 by lia.
  replace (j - i + 1 - (j - i))%nat with 1%nat by lia. cbn [firstn].
  exists (skipn i l1). split; [reflexivity|]. split; [|assumption].
  unfold first_unit.
  destruct (Nat.eq_dec i j) as [->|Hne].
  - rewrite skipn_all2 by lia. cbn.
    rewrite nth_error_app2, Hl, Nat.sub_diag in Ha by lia. exact Ha.
  - rewrite nth_error_app1 in Ha by lia.
    rewrite <- (firstn_skipn i l1) in Ha at 1.
    rewrite nth_error_app2 in Ha by (rewrite length_firstn; lia).
    rewrite length_firstn in Ha.
    replace (i - Nat.min i (List.length l1))%nat with 0%nat in Ha by lia.
    destruct (skipn i l1); [discriminate Ha | exact Ha].
Qed.

Lemma last_unit_snoc (l : jsstring) (b : char16) : last_unit (l ++ [b]) = Some b.
Proof. unfold last_unit. now rewrite rev_app_distr. Qed.

(** ** Claims *)

(** C1. A well-formed JSON object or array with prose around it, the prose
    free of braces and brackets, is decoded to the value that parsing the
    object or array text alone gives. *)
Theorem payload_in_prose_is_decoded
    (pre j post : jsstring) (v : JSValue) (c : Console) :
  no_delimiter pre -> no_delimiter post ->
  JSON.parse j = Normal v -> is_container v ->
  extractAndDecode (pre ++ j ++ post) c = (c, Normal v).
Proof.
  intros [Hpre _] [_ Hpost] Hv Cv.
  destruct (JSONFacts.parse_container_core j v Hv Cv)
    as (w1 & core & w2 & -> & B1 & B2 & Dc & Pc).
  apply JSONFacts.blank_no_delimiter in B1, B2.
  destruct B1 as [B1 _], B2 as [_ B2].
  replace (pre ++ (w1 ++ core ++ w2) ++ post)
    with ((pre ++ w1) ++ core ++ (w2 ++ post))
    by now rewrite <- !app_assoc.
  apply extract_payload_in_prose; try assumption.
  - rewrite has_open_app. tauto.
  - rewrite has_close_app. tauto.
Qed.

Lemma payload_in_prose_is_decoded_witness :
  extractAndDecode (str "Sure: " ++ str " [1, 2] " ++ str " Done.") [] =
    ([], Normal (JArray [JNumber one; JNumber (mkNum false 2 0)])).
Proof.
  apply (payload_in_prose_is_decoded
           (str "Sure: ") (str " [1, 2] ") (str " Done.")).
  - split; unfold has_open, has_close; cbn; intuition discriminate.
  - split; unfold has_open, has_close; cbn; intuition discriminate.
  - vm_compute. reflexivity.
  - exact I.
Defined.

(** C2, as the code has it.  With an opening and a closing delimiter present
    and the start index not beyond the end index, the substring handed to
    [JSON.parse] runs from the start index to the end index, both endpoint
    code units included. *)
Theorem ordered_substring_spans (s : jsstring) :
  has_open s -> has_close s -> startIndex s <= endIndex s ->
  robustJsonParse s = parseOrReport s (jsonSubString s) /\
  spans_inclusive s (jsonSubString s) (startIndex s) (endIndex s) /\
  Z.of_nat (List.length (jsonSubString s)) = endIndex s - startIndex s + 1.
Proof.
  intros Ho Hc Hle.
  destruct (startIndex_points s Ho) as (Rs & o & Oo & No).
  destruct (endIndex_points s Hc) as (Re & cl & Ccl & Ncl).
  split; [now apply robustJsonParse_parses|].
  unfold spans_inclusive. rewrite (jsonSubString_span s Ho Hle).
  destruct (span_endpoints s (Z.to_nat (startIndex s)) (Z.to_nat (endIndex s)) o cl)
    as (mid & E & F & L); [lia | assumption | assumption |].
  rewrite !Z2Nat.id in E by lia. rewrite E, No, Ncl.
  repeat split; [assumption | apply last_unit_snoc |].
  rewrite length_app, L. cbn [List.length]. lia.
Qed.

Lemma ordered_substring_spans_witness :
  spans_inclusive (str "see {}, ok") (jsonSubString (str "see {}, ok")) 4 5.
Proof.
  apply (ordered_substring_spans (str "see {}, ok")).
  - left. cbn. tauto.
  - left. cbn. tauto.
  - vm_compute. discriminate.
Defined.

(** C2 as stated fails when the last closing delimiter precedes the first
    opening one: [substring] swaps its arguments, so for a closing brace, a
    1 and an opening brace the parser receives the 1 in between, which holds
    neither endpoint. *)
Lemma misordered_substring_is_not_the_span :
  has_open (str "}1{") /\ has_close (str "}1{") /\
  startIndex (str "}1{") = 2 /\ endIndex (str "}1{") = 0 /\
  jsonSubString (str "}1{") = str "1" /\
  ~ spans_inclusive (str "}1{") (jsonSubString (str "}1{"))
      (startIndex (str "}1{")) (endIndex (str "}1{")).
Proof.
  split; [left; cbn; tauto|]. split; [left; cbn; tauto|].
  repeat split. intros (H & _). vm_compute in H. discriminate H.
Qed.

(** C3, as the code has it.  Whenever the extracted substring is not valid
    JSON, the call writes the original string and the extracted substring to
    the error console and throws an [Error] that carries only a fixed
    message; for the object text whose member a lacks a value, the extracted
    substring written to the console is that text itself. *)
Theorem decode_failure_is_logged_not_carried (c : Console) :
  (forall s,
     has_open s -> has_close s ->
     JSON.parse (jsonSubString s) = Throw SyntaxError ->
     extractAndDecode s c =
       (c ++ failure_report s (jsonSubString s), Throw (Error msg_unparsable)) /\
     fails_with DecodeError (extractAndDecode s c)) /\
  jsonSubString broken = broken /\
  extractAndDecode broken c =
    (c ++ failure_report broken broken, Throw (Error msg_unparsable)).
Proof.
  assert (G : forall s,
     has_open s -> has_close s ->
     JSON.parse (jsonSubString s) = Throw SyntaxError ->
     extractAndDecode s c =
       (c ++ failure_report s (jsonSubString s), Throw (Error msg_unparsable))).
  { intros s Ho Hc Hp. unfold extractAndDecode.
    rewrite robustJsonParse_parses by assumption.
    now apply parseOrReport_fail with (e := SyntaxError). }
  split; [|split].
  - intros s Ho Hc Hp. split; [now apply G|].
    rewrite G by assumption. eexists; split; reflexivity.
  - reflexivity.
  - apply (G broken); [left | left |]; vm_compute; tauto.
Qed.

Lemma decode_failure_is_logged_not_carried_witness :
  extractAndDecode (str "[1,]") [] =
    ([] ++ failure_report (str "[1,]") (jsonSubString (str "[1,]")),
     Throw (Error msg_unparsable)).
Proof.
  apply (proj1 (decode_failure_is_logged_not_carried []) (str "[1,]")).
  - right. cbn. tauto.
  - right. cbn. tauto.
  - vm_compute. reflexivity.
Defined.

(** C3 as stated fails: two different inputs that both fail to decode throw
    the very same value, so neither the raw input nor the extracted
    substring can be read back from what the caller catches. *)
Lemma decode_error_payload_does_not_preserve_input :
  snd (extractAndDecode broken []) = Throw (Error msg_unparsable) /\
  snd (extractAndDecode (str "[}") []) = Throw (Error msg_unparsable) /\
  ~ exists raw_of sub_of, payload_preserves raw_of sub_of.
Proof.
  split; [reflexivity|]. split; [reflexivity|].
  intros (raw_of & sub_of & H).
  destruct (H broken [] (Error msg_unparsable) eq_refl eq_refl) as [H1 _].
  destruct (H (str "[}") [] (Error msg_unparsable) eq_refl eq_refl) as [H2 _].
  rewrite H1 in H2. vm_compute in H2. discriminate H2.
Qed.

(** C4. The call fails with an extraction error exactly when the input has
    no opening delimiter or has no closing delimiter; the empty string is
    such an input. *)
Theorem extraction_error_iff_delimiter_missing (s : jsstring) (c : Console) :
  (fails_with ExtractionError (extractAndDecode s c) <->
   ~ has_open s \/ ~ has_close s) /\
  fails_with ExtractionError (extractAndDecode [] c).
Proof.
  split; [apply extraction_error_cases|].
  eexists; split; [reflexivity | now left].
Qed.

Lemma extraction_error_iff_delimiter_missing_witness :
  fails_with ExtractionError (extractAndDecode (str "no payload here") []).
Proof.
  apply (proj2 (proj1 (extraction_error_iff_delimiter_missing
                         (str "no payload here") []))).
  left. unfold has_open. cbn. intuition discriminate.
Defined.

(** C5. A string with an opening brace and neither a closing brace nor a
    closing bracket anywhere fails with the extraction error for a missing
    end, not with a decode error. *)
Theorem unclosed_brace_is_extraction_error (s : jsstring) (c : Console) :
  In (ch "{") s -> ~ In (ch "}") s -> ~ In (ch "]") s ->
  extractAndDecode s c = (c, Throw (Error msg_no_end)) /\
  fails_with ExtractionError (extractAndDecode s c) /\
  ~ fails_with DecodeError (extractAndDecode s c).
Proof.
  intros Ho H1 H2. unfold extractAndDecode.
  rewrite robustJsonParse_no_close; [| now left | unfold has_close; tauto].
  split; [reflexivity|]. split.
  - eexists; split; [reflexivity | now right].
  - intros (e & He & Hk). cbn [snd] in He. injection He as <-.
    unfold DecodeError in Hk.
    destruct messages_distinct as (_ & D & _). apply D. congruence.
Qed.

Lemma unclosed_brace_is_extraction_error_witness :
  extractAndDecode (str "{") [] = ([], Throw (Error msg_no_end)).
Proof.
  apply (unclosed_brace_is_extraction_error (str "{") []).
  - cbn. tauto.
  - cbn. intros [H|[]]. discriminate H.
  - cbn. intros [H|[]]. discriminate H.
Defined.

(** Where no closing delimiter occurs at all, a string whose only opening
    delimiter is the bracket does fail with the extraction error for a
    missing end. *)
Lemma bracket_without_any_close (s : jsstring) (c : Console) :
  In (ch "[") s -> ~ has_close s ->
  extractAndDecode s c = (c, Throw (Error msg_no_end)).
Proof.
  intros Hb Hc. unfold extractAndDecode.
  apply robustJsonParse_no_close; [now right | assumption].
Qed.

(** C6. The claim asks for the extraction error whenever nothing closes
    after the only opening bracket.  The code breaks it: in a closing
    bracket, a 7 and an opening bracket, the bracket is the only opening
    delimiter and nothing closes after it, yet the guard for a missing end
    takes the closing bracket in front for the end; no extraction error is
    raised, the 7 in between goes to the parser and the call returns the
    number 7. *)
Lemma closing_before_bracket_is_not_an_extraction_error :
  bracket_never_closed (str "]7[") /\
  extractAndDecode (str "]7[") [] = ([], Normal (JNumber seven)) /\
  ~ fails_with ExtractionError (extractAndDecode (str "]7[") []).
Proof.
  split; [|split].
  - split; [cbn; intuition discriminate|].
    exists (str "]7"), []. split; [reflexivity|].
    unfold has_close. cbn. intuition discriminate.
  - reflexivity.
  - intros (e & He & _). discriminate He.
Qed.

(** C7. On the text with two fragments the extractor takes the greedy span
    from the first opening brace to the last closing bracket, and the call
    fails with a decode error because that span is not valid JSON. *)
Theorem two_fragments_greedy_span_fails (c : Console) :
  startIndex two_fragments = 6 /\ endIndex two_fragments = 31 /\
  jsonSubString two_fragments = greedy_span /\
  JSON.parse greedy_span = Throw SyntaxError /\
  extractAndDecode two_fragments c =
    (c ++ failure_report two_fragments greedy_span, Throw (Error msg_unparsable)) /\
  fails_with DecodeError (extractAndDecode two_fragments c).
Proof.
  assert (P : JSON.parse greedy_span = Throw SyntaxError) by (vm_compute; reflexivity).
  assert (E : extractAndDecode two_fragments c =
    (c ++ failure_report two_fragments greedy_span, Throw (Error msg_unparsable))).
  { unfold extractAndDecode. rewrite robustJsonParse_parses.
    - change (jsonSubString two_fragments) with greedy_span.
      now apply parseOrReport_fail with (e := SyntaxError).
    - left. vm_compute. tauto.
    - left. vm_compute. tauto. }
  repeat split; try assumption; try reflexivity.
  rewrite E. eexists; split; reflexivity.
Qed.

(** C8. On the object wrapped in markdown code fences the call succeeds and
    returns the object whose one property a has the value 1. *)
Theorem fenced_object_is_decoded (c : Console) :
  jsonSubString fenced = object_a_1 /\
  extractAndDecode fenced c = (c, Normal value_a_1).
Proof.
  split; [reflexivity|].
  unfold extractAndDecode. rewrite robustJsonParse_parses.
  - apply parseOrReport_ok. vm_compute. reflexivity.
  - left. vm_compute. tauto.
  - left. vm_compute. tauto.
Qed.

(** C9. The outcome of a call depends on the input string alone: two calls
    on the same string, whatever the console holds when each starts, end in
    the same completion and add the same entries to the console. *)
Theorem extractAndDecode_deterministic (s : jsstring) (c1 c2 : Console) :
  snd (extractAndDecode s c1) = snd (extractAndDecode s c2) /\
  exists report,
    fst (extractAndDecode s c1) = c1 ++ report /\
    fst (extractAndDecode s c2) = c2 ++ report.
Proof.
  unfold extractAndDecode.
  destruct (has_open_dec s) as [Ho|Ho].
  - destruct (has_close_dec s) as [Hc|Hc].
    + rewrite robustJsonParse_parses by assumption.
      destruct (JSON.parse (jsonSubString s)) as [v|e] eqn:E.
      * rewrite !(parseOrReport_ok _ _ v) by assumption.
        split; [reflexivity | exists []; now rewrite !app_nil_r].
      * rewrite !(parseOrReport_fail _ _ e) by assumption.
        split; [reflexivity | now eexists].
    + rewrite !robustJsonParse_no_close by assumption.
      split; [reflexivity | exists []; now rewrite !app_nil_r].
  - rewrite !robustJsonParse_no_open by assumption.
    split; [reflexivity | exists []; now rewrite !app_nil_r].
Qed.

(** C10. Whenever the start index does not exceed the end index, both kinds
    of delimiter being present, the substring passed to [JSON.parse] is not
    empty, begins with an opening brace or bracket and ends with a closing
    brace or bracket. *)
Theorem ordered_substring_is_delimited (s : jsstring) :
  has_open s -> has_close s -> startIndex s <= endIndex s ->
  robustJsonParse s = parseOrReport s (jsonSubString s) /\
  jsonSubString s <> [] /\
  (exists o, is_open o /\ first_unit (jsonSubString s) = Some o) /\
  (exists cl, is_close cl /\ last_unit (jsonSubString s) = Some cl).
Proof.
  intros Ho Hc Hle.
  destruct (startIndex_points s Ho) as (Rs & o & Oo & No).
  destruct (endIndex_points s Hc) as (Re & cl & Ccl & Ncl).
  split; [now apply robustJsonParse_parses|].
  rewrite (jsonSubString_span s Ho Hle).
  destruct (span_endpoints s (Z.to_nat (startIndex s)) (Z.to_nat (endIndex s)) o cl)
    as (mid & E & F & _); [lia | assumption | assumption |].
  rewrite !Z2Nat.id in E by lia. rewrite E.
  split; [now destruct mid|].
  split; [now exists o | exists cl; split; [assumption | apply last_unit_snoc]].
Qed.

Lemma ordered_substring_is_delimited_witness :
  jsonSubString (str "a[1]b") = str "[1]" /\
  (exists o, is_open o /\ first_unit (jsonSubString (str "a[1]b")) = Some o).
Proof.
  split; [reflexivity|].
  apply (ordered_substring_is_delimited (str "a[1]b")).
  - right. cbn. tauto.
  - right. cbn. tauto.
  - vm_compute. discriminate.
Defined.

(** ** Further properties

    *** The fallback image URL *)

Lemma alnum_unescaped (c : char16) : is_alnum c = true -> uri_unescaped c = true.
Proof. unfold uri_unescaped. now intros ->. Qed.

Lemma alnum_in_class (c : char16) :
  in_class c = true -> N.eqb c 32 = false -> is_alnum c = true.
Proof. unfold in_class. intros H E. rewrite E, orb_false_r in H. exact H. Qed.

Lemma split_nonempty (s : jsstring) (sep : char16) : split s sep <> [].
Proof.
  induction s as [|c t IH]; cbn [split]; [discriminate|].
  destruct (N.eqb c sep); [discriminate|].
  now destruct (split t sep).
Qed.

(** The pieces of a split hold the code units of the string other than the
    separator. *)
Lemma split_pieces (P : char16 -> Prop) (s : jsstring) (sep : char16) :
  Forall (fun c => c <> sep -> P c) s -> Forall (Forall P) (split s sep).
Proof.
  induction 1 as [|c t Hc _ IH]; cbn [split]; [repeat constructor|].
  destruct (N.eqb_spec c sep) as [E|E]; [now repeat constructor|].
  destruct (split t sep) as [|w ws]; [repeat constructor; auto|].
  inversion IH; subst. constructor; [constructor; auto | assumption].
Qed.

Lemma slice_first {A} (a : list A) (n : nat) :
  slice a 0 (Z.of_nat n) = firstn n a.
Proof.
  unfold slice.
  replace (0 <? 0) with false by reflexivity.
  replace (Z.of_nat n <? 0) with false by (symmetry; apply Z.ltb_ge; lia).
  replace (Z.to_nat (Z.min 0 (Z.of_nat (List.length a)))) with 0%nat by lia.
  cbn [skipn].
  destruct (Nat.le_gt_cases n (List.length a)) as [L|L].
  - f_equal. lia.
  - replace (Z.to_nat _) with (List.length a) by lia.
    now rewrite !firstn_all2 by lia.
Qed.

Lemma Forall_firstn {A} (P : A -> Prop) (n : nat) (l : list A) :
  Forall P l -> Forall P (firstn n l).
Proof.
  intros H. revert n. induction H as [|x l Hx _ IH]; intros [|n]; cbn [firstn];
    constructor; auto.
Qed.

Lemma promptWords_firstn (prompt : jsstring) :
  promptWords prompt = firstn 5 (split (replace_outside_class prompt) (ch " ")).
Proof. apply (slice_first _ 5). Qed.

(** The words are at least one and at most five, made of letters and digits
    only. *)
Lemma promptWords_shape (prompt : jsstring) :
  (1 <= List.length (promptWords prompt) <= 5)%nat /\
  Forall (Forall (fun c => is_alnum c = true)) (promptWords prompt).
Proof.
  rewrite promptWords_firstn. split.
  - pose proof (split_nonempty (replace_outside_class prompt) (ch " ")) as N.
    rewrite length_firstn.
    destruct (split _ _) as [|w ws]; [contradiction|]. cbn [List.length]. lia.
  - apply Forall_firstn. apply split_pieces.
    unfold replace_outside_class. apply Forall_forall. intros c Hc Hsp.
    apply filter_In in Hc. apply alnum_in_class; [tauto|].
    now apply N.eqb_neq.
Qed.

Lemma encode_alnum (w t : jsstring) :
  Forall (fun c => is_alnum c = true) w ->
  encodeURIComponent (w ++ t) = option_map (app w) (encodeURIComponent t).
Proof.
  induction 1 as [|c w Hc _ IH]; cbn [app encodeURIComponent].
  - now destruct (encodeURIComponent t).
  - rewrite (alnum_unescaped c Hc), IH. now destruct (encodeURIComponent t).
Qed.

(** Words of letters and digits joined by commas encode to the same words
    joined by the escaped comma. *)
Lemma encode_joined_words (ws : list jsstring) :
  Forall (Forall (fun c => is_alnum c = true)) ws ->
  encodeURIComponent (join ws (str ",")) = Some (join ws (str "%2C")).
Proof.
  induction 1 as [|w ws Hw Hws IH]; [reflexivity|].
  destruct ws as [|w' ws'].
  - cbn [join]. rewrite <- (app_nil_r w) at 1.
    rewrite (encode_alnum w [] Hw). cbn. now rewrite app_nil_r.
  - change (join (w :: w' :: ws') (str ","))
      with (w ++ str "," ++ join (w' :: ws') (str ",")).
    change (join (w :: w' :: ws') (str "%2C"))
      with (w ++ str "%2C" ++ join (w' :: ws') (str "%2C")).
    rewrite (encode_alnum w _ Hw).
    change (encodeURIComponent (str "," ++ join (w' :: ws') (str ",")))
      with (option_map (app (str "%2C"))
              (encodeURIComponent (join (w' :: ws') (str ",")))).
    now rewrite IH.
Qed.

Lemma findHighQualityWebImage_value (Math_random prompt : jsstring) :
  findHighQualityWebImage Math_random prompt =
  Some {| url := str "https://source.unsplash.com/1280x720/?" ++
                 join (promptWords prompt) (str "%2C") ++
                 str "&sig=" ++ Math_random;
          source := str "Unsplash" |}.
Proof.
  unfold findHighQualityWebImage. fold (promptWords prompt).
  now rewrite (encode_joined_words _ (proj2 (promptWords_shape prompt))).
Qed.

Lemma filter_all_true {A} (f : A -> bool) (l : list A) :
  Forall (fun x => f x = true) l -> filter f l = l.
Proof.
  induction 1 as [|x l Hx _ IH]; cbn [filter]; [reflexivity|].
  now rewrite Hx, IH.
Qed.

Lemma filter_all_false {A} (f : A -> bool) (l : list A) :
  Forall (fun x => f x = false) l -> filter f l = [].
Proof.
  induction 1 as [|x l Hx _ IH]; cbn [filter]; [reflexivity|].
  now rewrite Hx.
Qed.

Lemma alnum_not_space (c : char16) : is_alnum c = true -> N.eqb c 32 = false.
Proof.
  unfold is_alnum. rewrite !orb_true_iff, !andb_true_iff, !N.leb_le.
  intros H. apply N.eqb_neq. lia.
Qed.

Lemma split_word (w t : jsstring) :
  Forall (fun c => is_alnum c = true) w ->
  split (w ++ ch " " :: t) (ch " ") = w :: split t (ch " ").
Proof.
  induction 1 as [|c w Hc _ IH]; cbn [app split].
  - reflexivity.
  - change (ch " ") with 32%N in *. now rewrite (alnum_not_space c Hc), IH.
Qed.

Lemma split_last_word (w : jsstring) :
  Forall (fun c => is_alnum c = true) w -> split w (ch " ") = [w].
Proof.
  induction 1 as [|c w Hc _ IH]; cbn [split]; [reflexivity|].
  change (ch " ") with 32%N in *. now rewrite (alnum_not_space c Hc), IH.
Qed.

(** Splitting undoes joining, for words of letters and digits. *)
Lemma split_join (ws : list jsstring) :
  ws <> [] -> Forall (Forall (fun c => is_alnum c = true)) ws ->
  split (join ws (str " ")) (ch " ") = ws.
Proof.
  intros N H. induction H as [|w ws Hw Hws IH]; [contradiction|].
  destruct ws as [|w' ws'].
  - now apply split_last_word.
  - change (join (w :: w' :: ws') (str " "))
      with (w ++ ch " " :: join (w' :: ws') (str " ")).
    rewrite (split_word w _ Hw), IH; [reflexivity | discriminate].
Qed.

Lemma join_in_class (ws : list jsstring) :
  Forall (Forall (fun c => is_alnum c = true)) ws ->
  Forall (fun c => in_class c = true) (join ws (str " ")).
Proof.
  assert (W : forall w, Forall (fun c => is_alnum c = true) w ->
                        Forall (fun c => in_class c = true) w).
  { intros w. apply Forall_impl. intros c Hc. unfold in_class. now rewrite Hc. }
  induction 1 as [|w ws Hw Hws IH]; [constructor|].
  destruct ws as [|w' ws']; [now apply W|].
  change (join (w :: w' :: ws') (str " "))
    with (w ++ ch " " :: join (w' :: ws') (str " ")).
  apply Forall_app. split; [now apply W|]. constructor; [reflexivity | exact IH].
Qed.

Lemma join_safe (ws : list jsstring) :
  Forall (Forall (fun c => is_alnum c = true)) ws ->
  Forall (fun c => is_alnum c = true \/ c = ch "%") (join ws (str "%2C")).
Proof.
  assert (W : forall w, Forall (fun c => is_alnum c = true) w ->
                Forall (fun c => is_alnum c = true \/ c = ch "%") w).
  { intros w. apply Forall_impl. intros c Hc. now left. }
  induction 1 as [|w ws Hw Hws IH]; [constructor|].
  destruct ws as [|w' ws']; [now apply W|].
  change (join (w :: w' :: ws') (str "%2C"))
    with (w ++ str "%2C" ++ join (w' :: ws') (str "%2C")).
  apply Forall_app. split; [now apply W|].
  apply Forall_app. split; [|exact IH].
  repeat constructor; now (left + right).
Qed.

(** X1. Whatever the prompt, the fallback never throws: it returns the
    source Unsplash and the URL whose query is the prompt's words joined by
    the escaped comma, the words being at least one and at most five and
    made of letters and digits only. *)
Theorem fallback_image_url (Math_random prompt : jsstring) :
  findHighQualityWebImage Math_random prompt =
    Some {| url := str "https://source.unsplash.com/1280x720/?" ++
                   join (promptWords prompt) (str "%2C") ++
                   str "&sig=" ++ Math_random;
            source := str "Unsplash" |} /\
  (1 <= List.length (promptWords prompt) <= 5)%nat /\
  Forall (Forall (fun c => is_alnum c = true)) (promptWords prompt).
Proof.
  split; [apply findHighQualityWebImage_value | apply promptWords_shape].
Qed.

(** X2. Between the question mark and the sig parameter the URL holds only
    letters, digits and percent signs: nothing in the prompt can add a
    parameter, a fragment or a path to it. *)
Theorem fallback_image_query_is_inert (Math_random prompt : jsstring) :
  exists query,
    findHighQualityWebImage Math_random prompt =
      Some {| url := str "https://source.unsplash.com/1280x720/?" ++ query ++
                     str "&sig=" ++ Math_random;
              source := str "Unsplash" |} /\
    Forall (fun c => is_alnum c = true \/ c = ch "%") query.
Proof.
  exists (join (promptWords prompt) (str "%2C")).
  split; [apply findHighQualityWebImage_value|].
  apply join_safe, promptWords_shape.
Qed.

(** X3. For a prompt of words of letters and digits separated by single
    spaces, the query is the first five words, or all of them when they are
    fewer, joined by the escaped comma. *)
Theorem fallback_image_takes_five_words
    (Math_random : jsstring) (ws : list jsstring) :
  ws <> [] -> Forall (Forall (fun c => is_alnum c = true)) ws ->
  findHighQualityWebImage Math_random (join ws (str " ")) =
    Some {| url := str "https://source.unsplash.com/1280x720/?" ++
                   join (firstn 5 ws) (str "%2C") ++
                   str "&sig=" ++ Math_random;
            source := str "Unsplash" |}.
Proof.
  intros N H. rewrite findHighQualityWebImage_value, promptWords_firstn.
  unfold replace_outside_class.
  now rewrite (filter_all_true _ _ (join_in_class ws H)), (split_join ws N H).
Qed.

Lemma fallback_image_takes_five_words_witness :
  option_map url
    (findHighQualityWebImage (str "0.25")
       (join [str "how"; str "a"; str "jet"; str "engine"; str "works";
              str "inside"] (str " "))) =
  Some (str "https://source.unsplash.com/1280x720/?how%2Ca%2Cjet%2Cengine%2Cworks&sig=0.25").
Proof.
  rewrite (fallback_image_takes_five_words (str "0.25")
             [str "how"; str "a"; str "jet"; str "engine"; str "works";
              str "inside"]).
  - reflexivity.
  - discriminate.
  - repeat constructor.
Defined.

(** X4. A prompt without any letter, digit or space, the empty prompt
    included, gives the URL with an empty query. *)
Theorem fallback_image_without_words (Math_random prompt : jsstring) :
  Forall (fun c => in_class c = false) prompt ->
  findHighQualityWebImage Math_random prompt =
    Some {| url := str "https://source.unsplash.com/1280x720/?" ++
                   str "&sig=" ++ Math_random;
            source := str "Unsplash" |}.
Proof.
  intros H. rewrite findHighQualityWebImage_value, promptWords_firstn.
  unfold replace_outside_class. now rewrite (filter_all_false _ _ H).
Qed.

Lemma fallback_image_without_words_witness :
  option_map url (findHighQualityWebImage (str "0.75") (str "?!#&/=")) =
  Some (str "https://source.unsplash.com/1280x720/?&sig=0.75").
Proof.
  rewrite (fallback_image_without_words (str "0.75") (str "?!#&/=")).
  - reflexivity.
  - repeat constructor.
Defined.

(** *** More on [robustJsonParse] *)

Lemma indexOf_le (c : char16) (s : jsstring) (k : nat) :
  nth_error s k = Some c -> 0 <= indexOf s c <= Z.of_nat k.
Proof.
  revert k. induction s as [|x t IH]; intros [|k]; cbn [nth_error indexOf];
    try discriminate.
  - intros [= ->]. rewrite N.eqb_refl. lia.
  - intros H. destruct (N.eqb x c); [lia|].
    specialize (IH k H). destruct (Z.eqb_spec (indexOf t c) (-1)); lia.
Qed.

Lemma lastIndexOf_ge (c : char16) (s : jsstring) (k : nat) :
  nth_error s k = Some c -> Z.of_nat k <= lastIndexOf s c.
Proof.
  revert k. induction s as [|x t IH]; intros [|k]; cbn [nth_error lastIndexOf];
    try discriminate.
  - intros [= ->]. rewrite N.eqb_refl.
    pose proof (lastIndexOf_range c t).
    destruct (Z.eqb_spec (lastIndexOf t c) (-1)); lia.
  - intros H. specialize (IH k H).
    destruct (Z.eqb_spec (lastIndexOf t c) (-1)); lia.
Qed.

(** No opening delimiter stands before the start index, no closing one after
    the end index. *)
Lemma startIndex_least (s : jsstring) (k : nat) (o : char16) :
  is_open o -> nth_error s k = Some o -> startIndex s <= Z.of_nat k.
Proof.
  intros Ho H. pose proof (indexOf_le o s k H) as L. unfold startIndex.
  pose proof (indexOf_range (ch "{") s). pose proof (indexOf_range (ch "[") s).
  destruct Ho as [-> | ->];
    destruct (Z.eqb_spec (indexOf s (ch "{")) (-1));
    destruct (Z.eqb_spec (indexOf s (ch "[")) (-1)); lia.
Qed.

Lemma endIndex_greatest (s : jsstring) (k : nat) (cl : char16) :
  is_close cl -> nth_error s k = Some cl -> Z.of_nat k <= endIndex s.
Proof.
  intros Hc H. pose proof (lastIndexOf_ge cl s k H) as L. unfold endIndex.
  destruct Hc as [-> | ->]; lia.
Qed.

Lemma span_In (s : jsstring) (i j : Z) (x : char16) :
  0 <= i -> In x (span s i j) ->
  exists k, i <= Z.of_nat k <= j /\ nth_error s k = Some x.
Proof.
  intros Hi H. unfold span in H.
  apply In_nth_error in H. destruct H as [n H].
  assert (L : (n < Z.to_nat (j - i + 1))%nat).
  { destruct (Nat.lt_ge_cases n (Z.to_nat (j - i + 1))) as [L|L]; [exact L|].
    rewrite nth_error_firstn in H.
    destruct (Nat.ltb_spec n (Z.to_nat (j - i + 1))); [lia | discriminate]. }
  rewrite nth_error_firstn in H.
  destruct (Nat.ltb_spec n (Z.to_nat (j - i + 1))); [|lia].
  rewrite nth_error_skipn in H.
  exists (Z.to_nat i + n)%nat. split; [lia | exact H].
Qed.

(** Out of order, the text handed to the parser holds no delimiter. *)
Lemma misordered_substring_no_delimiter (s : jsstring) :
  has_open s -> has_close s -> endIndex s < startIndex s ->
  no_delimiter (jsonSubString s).
Proof.
  intros Ho Hc Hlt. rewrite (jsonSubString_between s Ho Hc Hlt).
  destruct (endIndex_points s Hc) as [Re _].
  assert (O : forall o, is_open o ->
                ~ In o (span s (endIndex s + 1) (startIndex s - 1))).
  { intros o Io H. apply span_In in H; [|lia]. destruct H as (k & Rk & Nk).
    pose proof (startIndex_least s k o Io Nk). lia. }
  assert (C : forall cl, is_close cl ->
                ~ In cl (span s (endIndex s + 1) (startIndex s - 1))).
  { intros cl Icl H. apply span_In in H; [|lia]. destruct H as (k & Rk & Nk).
    pose proof (endIndex_greatest s k cl Icl Nk). lia. }
  split; intros [H|H].
  - now apply (O (ch "{")); [left|].
  - now apply (O (ch "[")); [right|].
  - now apply (C (ch "}")); [left|].
  - now apply (C (ch "]")); [right|].
Qed.

(** A text without opening delimiter never parses to an object or array. *)
Lemma container_needs_open (j : jsstring) (v : JSValue) :
  JSON.parse j = Normal v -> is_container v -> has_open j.
Proof.
  intros H Cv.
  destruct (JSONFacts.parse_container_core j v H Cv)
    as (w1 & core & w2 & -> & _ & _ & Dc & _).
  now apply delimited_has_open.
Qed.

(** X5. When the last closing delimiter comes before the first opening one,
    the parser receives the text strictly between the two, which holds no
    brace or bracket; so the call can fail or return a number, string,
    boolean or null, but never an object or an array. *)
Theorem misordered_input_never_yields_container (s : jsstring) (c : Console) :
  has_open s -> has_close s -> endIndex s < startIndex s ->
  robustJsonParse s = parseOrReport s (jsonSubString s) /\
  jsonSubString s = span s (endIndex s + 1) (startIndex s - 1) /\
  no_delimiter (jsonSubString s) /\
  forall v, snd (robustJsonParse s c) = Normal v -> ~ is_container v.
Proof.
  intros Ho Hc Hlt.
  split; [now apply robustJsonParse_parses|].
  split; [now apply jsonSubString_between|].
  pose proof (misordered_substring_no_delimiter s Ho Hc Hlt) as [N _].
  split; [now apply misordered_substring_no_delimiter|].
  intros v Hv Cv. apply N.
  rewrite robustJsonParse_parses in Hv by assumption.
  destruct (parseOrReport_cases s (jsonSubString s) c)
    as [(v' & P & E) | (_ & E)]; rewrite E in Hv; cbn [snd] in Hv;
    [|discriminate Hv].
  injection Hv as ->. now apply (container_needs_open _ v).
Qed.

Lemma misordered_input_never_yields_container_witness :
  jsonSubString (str "] true [") = str " true " /\
  no_delimiter (jsonSubString (str "] true [")).
Proof.
  split; [reflexivity|].
  apply (misordered_input_never_yields_container (str "] true [") []).
  - right. cbn. tauto.
  - right. cbn. tauto.
  - vm_compute. reflexivity.
Defined.

Lemma indexOf_app_clean (c : char16) (s post : jsstring) :
  ~ In c post -> indexOf (s ++ post) c = indexOf s c.
Proof.
  intros H. induction s as [|x t IH]; cbn [app indexOf].
  - now apply indexOf_absent.
  - now rewrite IH.
Qed.

Lemma lastIndexOf_shift (c : char16) (pre s : jsstring) :
  ~ In c pre ->
  lastIndexOf (pre ++ s) c =
  if lastIndexOf s c =? -1 then -1
  else Z.of_nat (List.length pre) + lastIndexOf s c.
Proof.
  induction pre as [|x pre IH]; intros H; cbn [app lastIndexOf List.length].
  - destruct (Z.eqb_spec (lastIndexOf s c) (-1)); lia.
  - rewrite IH by (intros K; apply H; now right).
    pose proof (lastIndexOf_range c s).
    destruct (Z.eqb_spec (lastIndexOf s c) (-1)) as [E|E].
    + cbn [Z.eqb]. destruct (N.eqb_spec x c); [|reflexivity].
      exfalso. apply H. now left.
    + destruct (Z.eqb_spec (Z.of_nat (List.length pre) + lastIndexOf s c) (-1));
        lia.
Qed.

(** Inside delimiter-free prose each of the four searches finds what it finds
    in the text alone, moved by the length of the leading prose. *)
Lemma indexOf_in_prose (c : char16) (pre s post : jsstring) :
  ~ In c pre -> ~ In c post ->
  indexOf (pre ++ s ++ post) c =
  if indexOf s c =? -1 then -1 else Z.of_nat (List.length pre) + indexOf s c.
Proof.
  intros H1 H2. now rewrite (indexOf_skip c pre _ H1), (indexOf_app_clean c s post H2).
Qed.

Lemma lastIndexOf_in_prose (c : char16) (pre s post : jsstring) :
  ~ In c pre -> ~ In c post ->
  lastIndexOf (pre ++ s ++ post) c =
  if lastIndexOf s c =? -1 then -1
  else Z.of_nat (List.length pre) + lastIndexOf s c.
Proof.
  intros H1 H2.
  now rewrite app_assoc, (lastIndexOf_skip c _ post H2), (lastIndexOf_shift c pre s H1).
Qed.

Lemma firstn_skipn_app {A} (s post : list A) (m k : nat) :
  (m + k <= List.length s)%nat ->
  firstn k (skipn m (s ++ post)) = firstn k (skipn m s).
Proof.
  intros L. rewrite skipn_app.
  replace (m - List.length s)%nat with 0%nat by lia. cbn [skipn].
  rewrite firstn_app.
  replace (k - List.length (skipn m s))%nat with 0%nat
    by (rewrite length_skipn; lia).
  cbn [firstn]. apply app_nil_r.
Qed.

Lemma substring_in_prose (pre s post : jsstring) (a b : Z) :
  0 <= a <= Z.of_nat (List.length s) -> 0 <= b <= Z.of_nat (List.length s) ->
  substring (pre ++ s ++ post)
    (Z.of_nat (List.length pre) + a) (Z.of_nat (List.length pre) + b) =
  substring s a b.
Proof.
  intros Ha Hb. unfold substring, clamp. rewrite !length_app.
  set (n := Z.of_nat (List.length pre)).
  replace (Z.min (Z.max (n + a) 0) _) with (n + a) by lia.
  replace (Z.min (Z.max (n + b) 0) _) with (n + b) by lia.
  replace (Z.min (Z.max a 0) _) with a by lia.
  replace (Z.min (Z.max b 0) _) with b by lia.
  replace (Z.max (n + a) (n + b) - Z.min (n + a) (n + b))
    with (Z.max a b - Z.min a b) by lia.
  replace (Z.to_nat (Z.min (n + a) (n + b)))
    with (List.length pre + Z.to_nat (Z.min a b))%nat by lia.
  rewrite skipn_app, skipn_all2 by lia.
  replace (List.length pre + Z.to_nat (Z.min a b) - List.length pre)%nat
    with (Z.to_nat (Z.min a b)) by lia.
  cbn [app]. apply firstn_skipn_app. lia.
Qed.

Lemma jsonSubString_prose_invariant (pre s post : jsstring) :
  no_delimiter pre -> no_delimiter post -> has_open s -> has_close s ->
  jsonSubString (pre ++ s ++ post) = jsonSubString s.
Proof.
  intros [O1 C1] [O2 C2] Ho Hc. unfold has_open, has_close in O1, C1, O2, C2.
  destruct (startIndex_points s Ho) as [Rs _].
  destruct (endIndex_points s Hc) as [Re _].
  unfold jsonSubString.
  replace (startIndex (pre ++ s ++ post))
    with (Z.of_nat (List.length pre) + startIndex s).
  replace (endIndex (pre ++ s ++ post) + 1)
    with (Z.of_nat (List.length pre) + (endIndex s + 1)).
  - apply substring_in_prose; lia.
  - apply has_close_endIndex in Hc. revert Hc Re. unfold endIndex.
    rewrite !lastIndexOf_in_prose by tauto.
    pose proof (lastIndexOf_range (ch "}") s).
    pose proof (lastIndexOf_range (ch "]") s).
    destruct (Z.eqb_spec (lastIndexOf s (ch "}")) (-1));
      destruct (Z.eqb_spec (lastIndexOf s (ch "]")) (-1)); lia.
  - apply has_open_indices in Ho. revert Ho Rs. unfold startIndex.
    rewrite !indexOf_in_prose by tauto.
    pose proof (indexOf_range (ch "{") s).
    pose proof (indexOf_range (ch "[") s).
    destruct (Z.eqb_spec (indexOf s (ch "{")) (-1)) as [E1|E1];
      destruct (Z.eqb_spec (indexOf s (ch "[")) (-1)) as [E2|E2];
      cbn [andb Z.eqb]; try discriminate; intros _ _;
      repeat match goal with
             | |- context [?x =? -1] => destruct (Z.eqb_spec x (-1)); try lia
             end; reflexivity.
Qed.

(** X6. Prose without braces and brackets, put before and after any text,
    changes neither the value the call returns nor the error it throws. *)
Theorem prose_does_not_change_outcome (pre s post : jsstring) (c : Console) :
  no_delimiter pre -> no_delimiter post ->
  snd (robustJsonParse (pre ++ s ++ post) c) = snd (robustJsonParse s c).
Proof.
  intros Hpre Hpost.
  assert (Ho : has_open (pre ++ s ++ post) <-> has_open s)
    by (rewrite !has_open_app; destruct Hpre, Hpost; tauto).
  assert (Hc : has_close (pre ++ s ++ post) <-> has_close s)
    by (rewrite !has_close_app; destruct Hpre, Hpost; tauto).
  destruct (has_open_dec s) as [O|O].
  - destruct (has_close_dec s) as [C|C].
    + rewrite !robustJsonParse_parses by tauto.
      rewrite jsonSubString_prose_invariant by assumption.
      destruct (parseOrReport_cases (pre ++ s ++ post) (jsonSubString s) c)
        as [(v & P & E) | (P & E)]; rewrite E.
      * now rewrite (parseOrReport_ok s _ v c P).
      * now rewrite (parseOrReport_fail s _ SyntaxError c P).
    + now rewrite !robustJsonParse_no_close by tauto.
  - now rewrite !robustJsonParse_no_open by tauto.
Qed.

Lemma prose_does_not_change_outcome_witness :
  snd (robustJsonParse (str "Here: " ++ str "[1,]" ++ str " Bye") []) =
  Throw (Error msg_unparsable).
Proof.
  rewrite (prose_does_not_change_outcome (str "Here: ") (str "[1,]") (str " Bye") []).
  - reflexivity.
  - split; unfold has_open, has_close; cbn; intuition discriminate.
  - split; unfold has_open, has_close; cbn; intuition discriminate.
Defined.

Lemma skip_ws_finds (x : char16) (t : jsstring) :
  In x t -> JSON.is_ws x = false -> JSON.skip_ws t <> [].
Proof.
  intros Hin W E. apply JSONFacts.skip_ws_nil_blank in E.
  unfold blank in E. rewrite Forall_forall in E.
  rewrite (E x Hin) in W. discriminate W.
Qed.

Lemma delimited_solid (j : jsstring) : delimited j -> solid j.
Proof.
  intros (o & mid & cl & [-> | ->] & _ & ->); now eexists _, _.
Qed.

(** After a complete object or array, anything but whitespace is a syntax
    error. *)
Lemma parse_container_then_more (j rest : jsstring) (v : JSValue) (x : char16) :
  JSON.parse j = Normal v -> is_container v -> delimited j ->
  In x rest -> JSON.is_ws x = false ->
  JSON.parse (j ++ rest) = Throw SyntaxError.
Proof.
  intros P Cv Dj Hin W. pose proof (delimited_solid j Dj) as Sj.
  unfold JSON.parse in P.
  pose proof (JSONFacts.skip_ws_solid j [] Sj) as K. rewrite app_nil_r in K.
  rewrite K in P.
  destruct (JSON.parse_value _ j) as [[v' r]|] eqn:PV; [|discriminate P].
  destruct (JSON.skip_ws r) eqn:B; [|discriminate P]. injection P as ->.
  destruct (proj1 (JSONFacts.parsers_local _) _ _ _ PV) as (p & E & _ & _ & Hp).
  unfold JSON.parse. rewrite (JSONFacts.skip_ws_solid j rest Sj).
  rewrite E, <- app_assoc.
  rewrite (Hp _ (r ++ rest)); [| rewrite !length_app; lia | now left].
  rewrite (JSONFacts.skip_ws_blank r rest (JSONFacts.skip_ws_nil_blank r B)).
  destruct (JSON.skip_ws rest) eqn:R; [|reflexivity].
  now apply (skip_ws_finds x rest) in R.
Qed.

Lemma is_close_not_ws (cl : char16) : is_close cl -> JSON.is_ws cl = false.
Proof. now intros [-> | ->]. Qed.

(** X7. A well-formed object or array followed, anywhere later in the
    response, by one more closing brace or bracket is not decoded: the span
    runs on to that last delimiter and the call fails with the decode
    error. *)
Theorem later_closing_delimiter_spoils_payload
    (pre j tail post : jsstring) (cl : char16) (v : JSValue) (c : Console) :
  ~ has_open pre -> JSON.parse j = Normal v -> is_container v ->
  is_close cl -> ~ has_close post ->
  JSON.parse (jsonSubString (pre ++ j ++ tail ++ cl :: post)) = Throw SyntaxError /\
  robustJsonParse (pre ++ j ++ tail ++ cl :: post) c =
    (c ++ failure_report (pre ++ j ++ tail ++ cl :: post)
            (jsonSubString (pre ++ j ++ tail ++ cl :: post)),
     Throw (Error msg_unparsable)).
Proof.
  intros Hpre P Cv Hcl Hpost.
  destruct (JSONFacts.parse_container_core j v P Cv)
    as (w1 & core & w2 & -> & B1 & _ & Dc & Pc).
  apply JSONFacts.blank_no_delimiter in B1. destruct B1 as [B1 _].
  assert (D : delimited (core ++ w2 ++ tail ++ [cl])).
  { destruct Dc as (o & mid & cl' & Ho & _ & ->).
    exists o, (mid ++ cl' :: w2 ++ tail), cl.
    split; [assumption|]. split; [assumption|].
    JSONFacts.norm. reflexivity. }
  assert (E : pre ++ (w1 ++ core ++ w2) ++ tail ++ cl :: post =
              (pre ++ w1) ++ (core ++ w2 ++ tail ++ [cl]) ++ post)
    by (JSONFacts.norm; reflexivity).
  assert (S : JSON.parse (jsonSubString (pre ++ (w1 ++ core ++ w2) ++ tail ++ cl :: post))
              = Throw SyntaxError).
  { rewrite E, jsonSubString_in_prose; [| rewrite has_open_app; tauto | assumption | assumption].
    apply (parse_container_then_more core _ v cl Pc Cv Dc).
    - rewrite !in_app_iff. right. right. now left.
    - now apply is_close_not_ws. }
  split; [exact S|].
  rewrite robustJsonParse_parses.
  - now apply parseOrReport_fail with (e := SyntaxError).
  - rewrite E. now apply delimited_has_open.
  - rewrite E. now apply delimited_has_close.
Qed.

Lemma later_closing_delimiter_spoils_payload_witness :
  robustJsonParse (str "Result: " ++ str "[1, 2]" ++ str " (see note 3" ++ ch "]" :: str ".") [] =
    ([] ++ failure_report (str "Result: [1, 2] (see note 3].") (str "[1, 2] (see note 3]"),
     Throw (Error msg_unparsable)).
Proof.
  apply (later_closing_delimiter_spoils_payload
           (str "Result: ") (str "[1, 2]") (str " (see note 3") (str ".")
           (ch "]") (JArray [JNumber one; JNumber (mkNum false 2 0)]) []).
  - unfold has_open. cbn. intuition discriminate.
  - vm_compute. reflexivity.
  - exact I.
  - now right.
  - unfold has_close. cbn. intuition discriminate.
Defined.

(** *** The service functions *)

Lemma jsstring_eqb_eq (a b : jsstring) : JSON.jsstring_eqb a b = true <-> a = b.
Proof.
  unfold JSON.jsstring_eqb. destruct (list_eq_dec N.eq_dec a b); split;
    congruence.
Qed.

Lemma jsstring_eqb_refl (a : jsstring) : JSON.jsstring_eqb a a = true.
Proof. now apply jsstring_eqb_eq. Qed.

Lemma jsstring_eqb_neq (a b : jsstring) : a <> b -> JSON.jsstring_eqb a b = false.
Proof.
  intros H. destruct (JSON.jsstring_eqb a b) eqn:E; [|reflexivity].
  now apply jsstring_eqb_eq in E.
Qed.

Lemma get_own_set_same (props : list (jsstring * JSValue)) (k : jsstring) (v : JSValue) :
  get_own (JSON.set_prop props k v) k = Some v.
Proof.
  induction props as [|[k' v'] t IH]; cbn [JSON.set_prop get_own].
  - now rewrite jsstring_eqb_refl.
  - destruct (JSON.jsstring_eqb k' k) eqn:E; cbn [get_own].
    + now rewrite jsstring_eqb_refl.
    + now rewrite E.
Qed.

Lemma get_own_set_other (props : list (jsstring * JSValue)) (k k' : jsstring) (v : JSValue) :
  k' <> k -> get_own (JSON.set_prop props k v) k' = get_own props k'.
Proof.
  intros N. induction props as [|[k0 v0] t IH]; cbn [JSON.set_prop get_own].
  - now rewrite (jsstring_eqb_neq k k') by congruence.
  - destruct (JSON.jsstring_eqb k0 k) eqn:E; cbn [get_own].
    + apply jsstring_eqb_eq in E. subst k0.
      now rewrite !(jsstring_eqb_neq k k') by congruence.
    + now rewrite IH.
Qed.

Lemma set_prop_keys_nodup (props : list (jsstring * JSValue)) (k : jsstring) (v : JSValue) :
  NoDup (List.map fst props) -> NoDup (List.map fst (JSON.set_prop props k v)).
Proof.
  assert (K : forall props k0,
            In k0 (List.map fst (JSON.set_prop props k v)) ->
            k0 = k \/ In k0 (List.map fst props)).
  { clear props. induction props as [|[k' v'] t IH]; intros k0; cbn.
    - intuition congruence.
    - destruct (JSON.jsstring_eqb k' k) eqn:E; cbn.
      + apply jsstring_eqb_eq in E. subst. intuition congruence.
      + intros [H|H]; [tauto | apply IH in H; tauto]. }
  induction props as [|[k' v'] t IH]; cbn; intros H.
  - repeat constructor. tauto.
  - inversion H as [|? ? Hn Ht]; subst.
    destruct (JSON.jsstring_eqb k' k) eqn:E; cbn.
    + apply jsstring_eqb_eq in E. subst. now constructor.
    + constructor; [|now apply IH].
      intros Hin. apply K in Hin. destruct Hin as [->|Hin]; [|contradiction].
      now rewrite jsstring_eqb_refl in E.
Qed.

(** Copying properties with distinct keys into an empty object gives the
    same properties. *)
Lemma define_all_fresh (props acc : list (jsstring * JSValue)) :
  NoDup (List.map fst (acc ++ props)) -> define_all acc props = acc ++ props.
Proof.
  revert acc. induction props as [|[k v] t IH]; intros acc H; cbn.
  - now rewrite app_nil_r.
  - assert (E : JSON.set_prop acc k v = acc ++ [(k, v)]).
    { clear IH. induction acc as [|[k' v'] a IHa]; [reflexivity|].
      cbn in *. inversion H as [|? ? Hn Ha]; subst.
      rewrite jsstring_eqb_neq.
      - f_equal. now apply IHa.
      - intros ->. apply Hn. rewrite map_app, in_app_iff. right. now left. }
    unfold define_all in IH. rewrite E, IH; rewrite <- app_assoc; [reflexivity | exact H].
Qed.

Lemma get_own_define_all (props more : list (jsstring * JSValue)) (k : jsstring) :
  ~ In k (List.map fst more) ->
  get_own (define_all props more) k = get_own props k.
Proof.
  revert props. induction more as [|[k' v'] t IH]; intros props H; [reflexivity|].
  cbn in *. unfold define_all in IH. rewrite IH by tauto.
  apply get_own_set_other. intros ->. tauto.
Qed.

(** Objects read by [JSON.parse] have distinct keys. *)
Lemma parse_members_keys (f : nat) :
  forall acc s v r,
    NoDup (List.map fst acc) -> JSON.parse_members f acc s = Some (v, r) ->
    exists props, v = JObject props /\ NoDup (List.map fst props).
Proof.
  induction f as [|f IH]; intros acc s v r Hacc H; [discriminate H|].
  cbn [JSON.parse_members] in H.
  destruct s as [|c t]; [discriminate|].
  destruct (N.eqb c 34); [|discriminate].
  destruct (JSON.parse_chars t) as [[k r1]|]; [|discriminate].
  destruct (JSON.skip_ws r1) as [|d r2]; [discriminate|].
  destruct (N.eqb d 58); [|discriminate].
  destruct (JSON.parse_value f _) as [[v1 r3]|]; [|discriminate].
  destruct (JSON.skip_ws r3) as [|e r4]; [discriminate|].
  pose proof (set_prop_keys_nodup acc k v1 Hacc) as N.
  destruct (N.eqb e 44); [now apply (IH _ _ _ _ N H)|].
  destruct (N.eqb e 125); [|discriminate].
  injection H as <- <-. now eexists.
Qed.

Lemma parse_elements_array (f : nat) :
  forall acc s v r,
    JSON.parse_elements f acc s = Some (v, r) -> exists elems, v = JArray elems.
Proof.
  induction f as [|f IH]; intros acc s v r H; [discriminate H|].
  cbn [JSON.parse_elements] in H.
  destruct (JSON.parse_value f s) as [[v1 r1]|]; [|discriminate].
  destruct (JSON.skip_ws r1) as [|e r2]; [discriminate|].
  destruct (N.eqb e 44); [now apply (IH _ _ _ _ H)|].
  destruct (N.eqb e 93); [|discriminate].
  injection H as <- <-. now eexists.
Qed.

Lemma parse_object_keys (j : jsstring) (props : list (jsstring * JSValue)) :
  JSON.parse j = Normal (JObject props) -> NoDup (List.map fst props).
Proof.
  unfold JSON.parse.
  destruct (JSON.parse_value _ _) as [[v r]|] eqn:P; [|discriminate].
  destruct (JSON.skip_ws r); [|discriminate]. intros [= ->].
  cbn [JSON.parse_value] in P.
  destruct (JSON.skip_ws j) as [|c t]; [discriminate|].
  destruct (N.eqb c 123).
  { destruct (JSON.skip_ws t) as [|d r0]; [discriminate|].
    destruct (N.eqb d 125); [injection P as <- _; constructor|].
    destruct (parse_members_keys _ [] _ _ _ (NoDup_nil _) P) as (p & [= ->] & N).
    exact N. }
  destruct (N.eqb c 91).
  { destruct (JSON.skip_ws t) as [|d r0]; [discriminate|].
    destruct (N.eqb d 93); [discriminate|].
    destruct (parse_elements_array _ _ _ _ _ P) as (l & [=]). }
  destruct (N.eqb c 34);
    [destruct (JSON.parse_chars t) as [[? ?]|]; discriminate|].
  destruct (N.eqb c 116);
    [destruct (JSON.strip_prefix _ t); discriminate|].
  destruct (N.eqb c 102);
    [destruct (JSON.strip_prefix _ t); discriminate|].
  destruct (N.eqb c 110);
    [destruct (JSON.strip_prefix _ t); discriminate|].
  destruct (JSON.parse_number _) as [[? ?]|]; discriminate.
Qed.

(** [robustJsonParse] only adds to the console, and adds nothing when it
    returns. *)
Lemma robustJsonParse_appends (s : jsstring) (c : Console) :
  robustJsonParse s c =
  (c ++ fst (robustJsonParse s []), snd (robustJsonParse s [])).
Proof.
  destruct (has_open_dec s) as [O|O].
  - destruct (has_close_dec s) as [C|C].
    + rewrite !robustJsonParse_parses by assumption.
      destruct (parseOrReport_cases s (jsonSubString s) c)
        as [(v & P & E) | (P & E)]; rewrite E.
      * rewrite (parseOrReport_ok s _ v [] P). cbn. now rewrite app_nil_r.
      * now rewrite (parseOrReport_fail s _ SyntaxError [] P).
    + rewrite !robustJsonParse_no_close by assumption. cbn. now rewrite app_nil_r.
  - rewrite !robustJsonParse_no_open by assumption. cbn. now rewrite app_nil_r.
Qed.

Lemma robustJsonParse_returns (s : jsstring) (c : Console) (v : JSValue) :
  snd (robustJsonParse s c) = Normal v ->
  robustJsonParse s c = (c, Normal v) /\ JSON.parse (jsonSubString s) = Normal v.
Proof.
  intros H.
  destruct (has_open_dec s) as [O|O].
  - destruct (has_close_dec s) as [C|C].
    + rewrite robustJsonParse_parses in * by assumption.
      destruct (parseOrReport_cases s (jsonSubString s) c)
        as [(v' & P & E) | (P & E)]; rewrite E in *; cbn [snd] in H;
        [|discriminate H].
      injection H as ->. now split.
    + rewrite robustJsonParse_no_close in H by assumption. discriminate H.
  - rewrite robustJsonParse_no_open in H by assumption. discriminate H.
Qed.

Section ServiceFacts.

Context {Rejection : Type}.
Variable number_is : Num -> nat -> bool.

(** The check [v.length !== n], as the code evaluates it, against
    [has_length]. *)
Lemma length_check (v : JSValue) (n : nat) :
  (exists len, @get_length Rejection v = Done len /\ differs number_is len n = false)
  <-> has_length number_is v n.
Proof.
  destruct v as [| b | x | s | elems | props]; cbn [get_length has_length].
  - split; [intros (len & [=] & _) | tauto].
  - split; [intros (len & [= <-] & D); discriminate D | tauto].
  - split; [intros (len & [= <-] & D); discriminate D | tauto].
  - split.
    + intros (len & [= <-] & D). cbn in D.
      now apply negb_false_iff, Nat.eqb_eq in D.
    + intros <-. eexists. split; [reflexivity|]. cbn. now rewrite Nat.eqb_refl.
  - split.
    + intros (len & [= <-] & D). cbn in D.
      now apply negb_false_iff, Nat.eqb_eq in D.
    + intros <-. eexists. split; [reflexivity|]. cbn. now rewrite Nat.eqb_refl.
  - split.
    + intros (len & [= <-] & D).
      destruct (get_own props (str "length")) as [[| | x | | |]|];
        try discriminate D.
      exists x. split; [reflexivity|]. now apply negb_false_iff in D.
    + intros (x & -> & H). eexists. split; [reflexivity|]. cbn. now rewrite H.
Qed.

(** What the common opening of the functions does: await the response and
    decode its text. *)
Lemma decoded_then {A} (ai : @Awaited Rejection) (k : JSValue -> SM A)
    (c c' : @SConsole Rejection) (a : A) :
  andThen (await ai) (fun text => andThen (callRobustJsonParse text) k) c =
    (c', Done a) ->
  exists text v,
    ai = Resolved (Some text) /\ robustJsonParse text [] = ([], Normal v) /\
    k v c = (c', Done a).
Proof.
  unfold andThen, await, callRobustJsonParse.
  destruct ai as [[text|]|e]; cbn; try discriminate.
  destruct (robustJsonParse text []) as [log [v|e]] eqn:R; [|discriminate].
  pose proof (robustJsonParse_returns text [] v) as [R' _];
    [now rewrite R|].
  rewrite R in R'. injection R' as ->. cbn. rewrite app_nil_r.
  intros H. now exists text, v.
Qed.

Lemma decoded_then_run {A} (text : jsstring) (v : JSValue)
    (k : JSValue -> SM A) (c : @SConsole Rejection) :
  robustJsonParse text [] = ([], Normal v) ->
  andThen (await (Resolved (Some text)))
    (fun text => andThen (callRobustJsonParse text) k) c = k v c.
Proof.
  intros R. unfold andThen, await, callRobustJsonParse, done.
  rewrite R. cbn. now rewrite app_nil_r.
Qed.

Lemma decoded_only (ai : @Awaited Rejection) (c c' : @SConsole Rejection) (v : JSValue) :
  andThen (await ai) callRobustJsonParse c = (c', Done v) ->
  c' = c /\ exists text,
    ai = Resolved (Some text) /\ robustJsonParse text [] = ([], Normal v).
Proof.
  intros H.
  destruct (decoded_then ai done c c' v) as (text & v' & E & R & K).
  - unfold andThen in *. destruct (await ai c) as [c0 [t|e]]; [|exact H].
    destruct (callRobustJsonParse t c0) as [c1 [x|e]]; exact H.
  - injection K as -> ->. split; [reflexivity | now exists text].
Qed.

Lemma guarded_done {A} (label message : jsstring) (body : SM A)
    (c c' : @SConsole Rejection) (a : A) :
  guarded label message body c = (c', Done a) <-> body c = (c', Done a).
Proof.
  unfold guarded. destruct (body c) as [c0 [x|e]]; split; congruence.
Qed.

(** A body that decodes the response and then runs a quiet [k] fails, when
    it fails, along one of the four ways of [failure_trace]. *)
Lemma body_raised {A} (ai : @Awaited Rejection) (k : JSValue -> SM A)
    (c c0 : @SConsole Rejection) (cause : @Caught Rejection) :
  quiet_check k ->
  andThen (await ai) (fun text => andThen (callRobustJsonParse text) k) c =
    (c0, Raised cause) ->
  exists log, failure_trace ai log cause /\ c0 = c ++ log.
Proof.
  intros Q. unfold andThen, await, callRobustJsonParse.
  destruct ai as [[text|]|e0]; cbn [raise done failure_trace].
  - destruct (robustJsonParse text []) as [log [v|e1]] eqn:R; cbn [fst snd].
    + pose proof (robustJsonParse_returns text [] v) as [R' _];
        [now rewrite R|].
      rewrite R in R'. injection R' as ->.
      destruct (k v (c ++ lift_console [])) as [c1 [a|e]] eqn:K;
        [discriminate|].
      intros [= <- <-]. destruct (Q _ _ _ _ K) as [-> E].
      exists []. split; [now split | reflexivity].
    + intros [= <- <-]. exists (lift_console log). now split.
  - intros [= <- <-]. exists []. split; [now split | now rewrite app_nil_r].
  - intros [= <- <-]. exists []. split; [now split | now rewrite app_nil_r].
Qed.

Lemma plain_body_raised (ai : @Awaited Rejection)
    (c c0 : @SConsole Rejection) (cause : @Caught Rejection) :
  andThen (await ai) callRobustJsonParse c = (c0, Raised cause) ->
  exists log, failure_trace ai log cause /\ c0 = c ++ log.
Proof.
  intros H. apply (body_raised ai done).
  - intros v c1 c2 e K. discriminate K.
  - unfold andThen in *. destruct (await ai c) as [c1 [t|e]]; [|exact H].
    destruct (callRobustJsonParse t c1) as [c2 [x|e]]; exact H.
Qed.

Lemma get_length_raises (v : JSValue) (e : @Caught Rejection) :
  get_length v = Raised e -> e = CTypeError.
Proof. destruct v; cbn; congruence. Qed.

Lemma get_field_raises (v : JSValue) (k : jsstring) (e : @Caught Rejection) :
  get_field v k = Raised e -> e = CTypeError.
Proof. destruct v; cbn; congruence. Qed.

Lemma items_length_differs_raises (v : JSValue) (e : @Caught Rejection) :
  items_length_differs number_is v = Raised e -> e = CTypeError.
Proof.
  unfold items_length_differs.
  destruct (get_field v (str "items")) as [[items|]|e0] eqn:G.
  - destruct items; try discriminate;
      (destruct (get_length _) as [len|e1] eqn:L; [discriminate|];
       intros [= <-]; now apply get_length_raises in L).
  - discriminate.
  - intros [= <-]. now apply get_field_raises in G.
Qed.

Lemma options_length_differs_raises (q : JSValue) (e : @Caught Rejection) :
  options_length_differs number_is q = Raised e -> e = CTypeError.
Proof.
  unfold options_length_differs.
  destruct (get_field q (str "options")) as [[options|]|e0] eqn:G.
  - destruct (get_length options) as [len|e1] eqn:L; [discriminate|].
    intros [= <-]. now apply get_length_raises in L.
  - congruence.
  - intros [= <-]. now apply get_field_raises in G.
Qed.

Lemma quiz_malformed_raises (v : JSValue) (e : @Caught Rejection) :
  quiz_malformed number_is v = Raised e -> e = CTypeError.
Proof.
  unfold quiz_malformed.
  destruct (get_length v) as [len|e0] eqn:L;
    [|intros [= <-]; now apply get_length_raises in L].
  destruct (differs number_is len 5); [discriminate|].
  unfold some. destruct v as [| b | x | s | qs | props]; try congruence.
  clear L. induction qs as [|q qs IH]; cbn [some_of]; [discriminate|].
  destruct (options_length_differs number_is q) as [[|]|e0] eqn:O.
  - discriminate.
  - exact IH.
  - intros [= <-]. now apply options_length_differs_raises in O.
Qed.

Lemma check_is_quiet (check : JSValue -> @Outcome Rejection bool)
    (m : jsstring) (result : JSValue -> JSValue) :
  (forall v e, check v = Raised e -> e = CTypeError) ->
  In m check_messages ->
  quiet_check (fun v =>
    andThen (pure (check v)) (fun wrong =>
      if wrong : bool then raise (CThrown (Error m)) else done (result v))).
Proof.
  intros T M v c0 c1 e. unfold andThen, pure, raise, done.
  destruct (check v) as [[|]|e0] eqn:C.
  - intros [= <- <-]. split; [reflexivity|]. right. now exists m.
  - discriminate.
  - intros [= <- <-]. split; [reflexivity|]. left. now apply (T v).
Qed.

Lemma comprehension_check_is_quiet :
  quiet_check (fun questions : JSValue =>
    andThen (pure (@get_length Rejection questions)) (fun len =>
      if differs number_is len 4 then
        raise (CThrown (Error (str "AI did not generate exactly 4 questions.")))
      else done questions)).
Proof.
  intros v c0 c1 e. unfold andThen, pure, raise, done.
  destruct (get_length v) as [len|e0] eqn:L.
  - destruct (differs number_is len 4); [|discriminate].
    intros [= <- <-]. split; [reflexivity|]. right.
    eexists. split; [|reflexivity]. cbn. tauto.
  - intros [= <- <-]. split; [reflexivity|]. left.
    now apply get_length_raises in L.
Qed.

Lemma done_is_quiet (result : JSValue -> JSValue) :
  @quiet_check Rejection JSValue (fun v => done (result v)).
Proof. intros v c0 c1 e K. discriminate K. Qed.

(** X8. Whatever goes wrong in one of the ten decoding functions, the
    caller gets the one [Error] with the function's own message, and the
    console is the console as it was, then what [robustJsonParse] wrote,
    then one entry: the function's label with the cause.  The cause is the
    failure of the request when the request failed, a [TypeError] when the
    response has no text, the error of [robustJsonParse] when that function
    threw, and otherwise a [TypeError] or the error of one of the checks. *)
Theorem decoder_failures_are_masked
    (label message : jsstring) (f : @Awaited Rejection -> @SM Rejection JSValue)
    (ai : @Awaited Rejection) (c c' : @SConsole Rejection) (e : @Caught Rejection) :
  decoder number_is label message f ->
  f ai c = (c', Raised e) ->
  e = CThrown (Error message) /\
  exists log cause,
    failure_trace ai log cause /\
    c' = c ++ log ++ [[SArg (LString label); SCaught cause]].
Proof.
  intros D H.
  assert (G : forall body : SM JSValue,
            (forall c0 cause, body c = (c0, Raised cause) ->
               exists log, failure_trace ai log cause /\ c0 = c ++ log) ->
            guarded label message body c = (c', Raised e) ->
            e = CThrown (Error message) /\
            exists log cause,
              failure_trace ai log cause /\
              c' = c ++ log ++ [[SArg (LString label); SCaught cause]]).
  { intros body B. unfold guarded.
    destruct (body c) as [c0 [x|cause]] eqn:E; [discriminate|].
    intros [= <- <-]. split; [reflexivity|].
    destruct (B c0 cause eq_refl) as (log & T & ->).
    exists log, cause. split; [exact T | now rewrite app_assoc]. }
  destruct D; apply G in H; try exact H; intros c0 cause K.
  - now apply plain_body_raised.
  - now apply plain_body_raised.
  - exact (body_raised ai _ c c0 cause comprehension_check_is_quiet K).
  - now apply plain_body_raised.
  - now apply plain_body_raised.
  - exact (body_raised ai _ c c0 cause (done_is_quiet _) K).
  - exact (body_raised ai _ c c0 cause (done_is_quiet _) K).
  - refine (body_raised ai _ c c0 cause
              (check_is_quiet (items_length_differs number_is) _ _
                 items_length_differs_raises _) K).
    cbn. tauto.
  - exact (body_raised ai _ c c0 cause (done_is_quiet _) K).
  - refine (body_raised ai _ c c0 cause
              (check_is_quiet (quiz_malformed number_is) _ (fun v => v)
                 quiz_malformed_raises _) K).
    cbn. tauto.
Qed.

Lemma some_of_false (callback : JSValue -> @Outcome Rejection bool)
    (elems : list JSValue) :
  some_of callback elems = Done false <->
  Forall (fun q => callback q = Done false) elems.
Proof.
  induction elems as [|x t IH]; cbn [some_of].
  - split; [constructor | reflexivity].
  - destruct (callback x) as [[|]|e] eqn:E.
    + split; [discriminate | intros H; inversion H; congruence].
    + rewrite IH. split; [now constructor | intros H; now inversion H].
    + split; [discriminate | intros H; inversion H; congruence].
Qed.

Lemma options_check (q : JSValue) :
  @options_length_differs Rejection number_is q = Done false <->
  quiz_question number_is q.
Proof.
  unfold options_length_differs, quiz_question. split.
  - destruct q as [| b | x | s | elems | props]; cbn [get_field];
      try discriminate.
    destruct (get_own props (str "options")) as [options|] eqn:G;
      [|discriminate].
    destruct (get_length options) as [len|e] eqn:L; [|discriminate].
    intros [= D]. exists props, options. repeat split; try assumption.
    apply length_check. now exists len.
  - intros (props & options & -> & G & H). cbn [get_field]. rewrite G.
    apply length_check in H. destruct H as (len & -> & ->). reflexivity.
Qed.

Lemma quiz_check (v : JSValue) :
  @quiz_malformed Rejection number_is v = Done false <->
  exists qs, v = JArray qs /\ List.length qs = 5%nat /\
             Forall (quiz_question number_is) qs.
Proof.
  unfold quiz_malformed. split.
  - destruct (get_length v) as [len|e] eqn:L; [|discriminate].
    destruct (differs number_is len 5) eqn:D; [discriminate|].
    intros S. unfold some in S.
    destruct v as [| b | x | s | qs | props]; try discriminate S.
    exists qs. split; [reflexivity|]. split.
    + apply (length_check (JArray qs) 5). now exists len.
    + apply some_of_false in S. revert S. apply Forall_impl.
      intros q. apply options_check.
  - intros (qs & -> & Hlen & H). cbn [get_length differs some].
    rewrite Hlen. cbn. apply some_of_false. revert H. apply Forall_impl.
    intros q. apply options_check.
Qed.

Lemma generateQuiz_accepts (text : jsstring) (qs : list JSValue)
    (c : @SConsole Rejection) :
  robustJsonParse text [] = ([], Normal (JArray qs)) ->
  List.length qs = 5%nat -> Forall (quiz_question number_is) qs ->
  generateQuiz number_is (Resolved (Some text)) c = (c, Done (JArray qs)).
Proof.
  intros R L F. unfold generateQuiz. apply guarded_done.
  rewrite (decoded_then_run text (JArray qs)) by assumption.
  unfold andThen, pure, done.
  assert (Q : @quiz_malformed Rejection number_is (JArray qs) = Done false)
    by (apply quiz_check; now exists qs).
  now rewrite Q.
Qed.

(** X9. [generateQuiz] returns exactly when the response text decodes to an
    array of five questions, each an object whose options have length 4; it
    returns that array as decoded and leaves the console as it was. *)
Theorem generateQuiz_returns_iff
    (ai : @Awaited Rejection) (c c' : @SConsole Rejection) (v : JSValue) :
  generateQuiz number_is ai c = (c', Done v) <->
  c' = c /\
  exists text qs,
    ai = Resolved (Some text) /\
    robustJsonParse text [] = ([], Normal v) /\
    v = JArray qs /\ List.length qs = 5%nat /\
    Forall (quiz_question number_is) qs.
Proof.
  split.
  - unfold generateQuiz. rewrite guarded_done.
    intros H. apply decoded_then in H. destruct H as (text & v0 & -> & R & K).
    unfold andThen, pure, raise, done in K.
    destruct (quiz_malformed number_is v0) as [[|]|e] eqn:Q;
      try discriminate K.
    injection K as <- <-. apply quiz_check in Q. destruct Q as (qs & -> & L & F).
    split; [reflexivity|]. now exists text, qs.
  - intros (-> & text & qs & -> & R & -> & L & F).
    now apply generateQuiz_accepts.
Qed.

(** X10. [generateComprehensionTest] returns exactly when the response text
    decodes to a value of length 4, which it returns as decoded. *)
Theorem generateComprehensionTest_returns_iff
    (ai : @Awaited Rejection) (c c' : @SConsole Rejection) (v : JSValue) :
  generateComprehensionTest number_is ai c = (c', Done v) <->
  c' = c /\
  exists text,
    ai = Resolved (Some text) /\
    robustJsonParse text [] = ([], Normal v) /\
    has_length number_is v 4.
Proof.
  unfold generateComprehensionTest. rewrite guarded_done. split.
  - intros H. apply decoded_then in H. destruct H as (text & v0 & -> & R & K).
    unfold andThen, pure, raise, done in K.
    destruct (get_length v0) as [len|e] eqn:L; [|discriminate K].
    destruct (differs number_is len 4) eqn:D; [discriminate K|].
    injection K as <- <-. split; [reflexivity|]. exists text.
    repeat split; try assumption. apply length_check. now exists len.
  - intros (-> & text & -> & R & H).
    rewrite (decoded_then_run text v) by assumption.
    apply length_check in H. destruct H as (len & L & D).
    unfold andThen, pure, done. now rewrite L, D.
Qed.

Lemma get_own_define_all_in (props more : list (jsstring * JSValue))
    (k : jsstring) (x : JSValue) :
  NoDup (List.map fst more) -> In (k, x) more ->
  get_own (define_all props more) k = Some x.
Proof.
  revert props. induction more as [|[k' v'] t IH]; intros props N H; [easy|].
  cbn in N. inversion N as [|? ? Hn Ht]; subst.
  change (define_all props ((k', v') :: t))
    with (define_all (JSON.set_prop props k' v') t).
  destruct H as [[= -> ->]|H].
  - rewrite get_own_define_all by assumption. apply get_own_set_same.
  - now apply IH.
Qed.

(** The literal that spreads a decoded value and lists further properties. *)
Lemma spread_overrides (j : jsstring) (parsed : JSValue)
    (more : list (jsstring * JSValue)) :
  JSON.parse j = Normal parsed -> NoDup (List.map fst more) ->
  overrides parsed more (spread_with parsed more).
Proof.
  intros P N. unfold overrides, spread_with. eexists. split; [reflexivity|].
  split.
  - intros k x H. now apply get_own_define_all_in.
  - intros props -> k H. rewrite get_own_define_all by assumption.
    cbn [own_enumerable]. rewrite (define_all_fresh props []); [reflexivity|].
    cbn [app]. now apply (parse_object_keys j).
Qed.

Lemma three_keys_distinct :
  NoDup [str "category"; str "suggestedTime"; str "task"].
Proof.
  repeat constructor; cbn; intuition discriminate.
Qed.

(** X11. A challenge from [getThinkBotChallenge] or
    [generateCustomThinkBotChallenge] is always an object whose category is
    the one requested, whatever the response said; the other properties are
    those of the decoded object. *)
Theorem challenge_category_is_the_requested
    (category : jsstring) (ai : @Awaited Rejection)
    (c c' : @SConsole Rejection) (v : JSValue) :
  getThinkBotChallenge category ai c = (c', Done v) \/
  generateCustomThinkBotChallenge category ai c = (c', Done v) ->
  c' = c /\
  exists text parsed,
    ai = Resolved (Some text) /\
    robustJsonParse text [] = ([], Normal parsed) /\
    overrides parsed [(str "category", JString category)] v.
Proof.
  unfold getThinkBotChallenge, generateCustomThinkBotChallenge.
  rewrite !guarded_done. intros H.
  assert (K : andThen (await ai)
                (fun text => andThen (callRobustJsonParse text)
                   (fun parsed => done
                      (spread_with parsed [(str "category", JString category)])))
                c = (c', Done v)) by (destruct H; assumption).
  apply decoded_then in K. destruct K as (text & parsed & -> & R & K).
  injection K as <- <-. split; [reflexivity|]. exists text, parsed.
  repeat split; try assumption.
  destruct (robustJsonParse_returns text [] parsed) as [_ P];
    [now rewrite R|].
  apply (spread_overrides _ _ _ P). repeat constructor. now cbn.
Qed.

(** X12. [getOddOneOutChallenge] returns only when the response decodes to
    an object whose items have length 4; the result is that object with the
    category set to Odd-One-Out. *)
Theorem oddOneOut_returns_four_items
    (ai : @Awaited Rejection) (c c' : @SConsole Rejection) (v : JSValue) :
  getOddOneOutChallenge number_is ai c = (c', Done v) ->
  c' = c /\
  exists text props items,
    ai = Resolved (Some text) /\
    robustJsonParse text [] = ([], Normal (JObject props)) /\
    get_own props (str "items") = Some items /\
    has_length number_is items 4 /\
    overrides (JObject props)
      [(str "category", JString (str "Odd-One-Out"))] v.
Proof.
  unfold getOddOneOutChallenge. rewrite guarded_done. intros H.
  apply decoded_then in H. destruct H as (text & parsed & -> & R & K).
  unfold andThen, pure, raise, done in K.
  destruct (items_length_differs number_is parsed) as [[|]|e] eqn:Q;
    try discriminate K.
  injection K as <- <-. split; [reflexivity|].
  unfold items_length_differs in Q.
  destruct parsed as [| b | x | s | elems | props]; cbn [get_field] in Q;
    try discriminate Q.
  destruct (get_own props (str "items")) as [items|] eqn:G; [|discriminate Q].
  assert (L : exists len, @get_length Rejection items = Done len /\
                          differs number_is len 4 = false).
  { destruct items; try discriminate Q;
      (destruct (get_length _) as [len|] eqn:E in Q; [|discriminate Q];
       injection Q as Q; exists len; split; [exact E | exact Q]). }
  exists text, props, items. repeat split; try assumption.
  - now apply length_check.
  - destruct (robustJsonParse_returns text [] (JObject props)) as [_ P];
      [now rewrite R|].
    apply (spread_overrides _ _ _ P). repeat constructor. now cbn.
Qed.

(** X13. A challenge from [getListeningPracticeChallenge] always has the
    category Listening Practice, the suggested time 0 and the fixed task,
    whatever the response said; the other properties are those of the
    decoded object. *)
Theorem listening_challenge_fixed_fields
    (ai : @Awaited Rejection) (c c' : @SConsole Rejection) (v : JSValue) :
  getListeningPracticeChallenge ai c = (c', Done v) ->
  c' = c /\
  exists text parsed,
    ai = Resolved (Some text) /\
    robustJsonParse text [] = ([], Normal parsed) /\
    overrides parsed
      [(str "category", JString (str "Listening Practice"));
       (str "suggestedTime", JNumber (mkNum false 0 0));
       (str "task",
        JString (str "Listen to the story and answer the questions that follow."))]
      v.
Proof.
  unfold getListeningPracticeChallenge. rewrite guarded_done. intros H.
  apply decoded_then in H. destruct H as (text & parsed & -> & R & K).
  injection K as <- <-. split; [reflexivity|]. exists text, parsed.
  repeat split; try assumption.
  destruct (robustJsonParse_returns text [] parsed) as [_ P];
    [now rewrite R|].
  apply (spread_overrides _ _ _ P). exact three_keys_distinct.
Qed.

Lemma plain_returns_decoded (label message : jsstring) :
  @returns_decoded Rejection
    (fun ai => guarded label message (andThen (await ai) callRobustJsonParse)).
Proof.
  intros ai c c' v. rewrite guarded_done. split.
  - apply decoded_only.
  - intros (-> & text & -> & R).
    unfold andThen, await, callRobustJsonParse, done. rewrite R. cbn.
    now rewrite app_nil_r.
Qed.

(** X14. [generateSimplifiedContent], [translateContent],
    [evaluateComprehensionTest] and [generateAnalyticsInsights] check
    nothing: they return exactly when [robustJsonParse] returns, and return
    its value as it is, whatever its shape. *)
Theorem plain_decoders_return_any_value (targetLanguage : jsstring) :
  @returns_decoded Rejection generateSimplifiedContent /\
  @returns_decoded Rejection (translateContent targetLanguage) /\
  @returns_decoded Rejection evaluateComprehensionTest /\
  @returns_decoded Rejection generateAnalyticsInsights.
Proof.
  split; [|split; [|split]]; exact (plain_returns_decoded _ _).
Qed.

(** X15. A well-formed quiz of five questions is accepted however the
    model dresses it: with prose or code fences around the array, as long as
    these hold no brace or bracket, [generateQuiz] returns the quiz that
    parsing the array alone gives. *)
Theorem generateQuiz_accepts_quiz_in_prose
    (pre j post : jsstring) (qs : list JSValue) (c : @SConsole Rejection) :
  no_delimiter pre -> no_delimiter post ->
  JSON.parse j = Normal (JArray qs) ->
  List.length qs = 5%nat -> Forall (quiz_question number_is) qs ->
  generateQuiz number_is (Resolved (Some (pre ++ j ++ post))) c =
    (c, Done (JArray qs)).
Proof.
  intros [Hpre _] [_ Hpost] P L F.
  apply generateQuiz_accepts; try assumption.
  destruct (JSONFacts.parse_container_core j _ P I)
    as (w1 & core & w2 & -> & B1 & B2 & Dc & Pc).
  apply JSONFacts.blank_no_delimiter in B1, B2.
  destruct B1 as [B1 _], B2 as [_ B2].
  replace (pre ++ (w1 ++ core ++ w2) ++ post)
    with ((pre ++ w1) ++ core ++ (w2 ++ post))
    by now rewrite <- !app_assoc.
  apply extract_payload_in_prose; try assumption.
  - rewrite has_open_app. tauto.
  - rewrite has_close_app. tauto.
Qed.

End ServiceFacts.

Lemma decoder_failures_are_masked_witness :
  generateQuiz decimal_is (@Resolved unit (Some (str "Sorry, no quiz today."))) [] =
    ([[SArg (LString (str "Error generating quiz:"));
       SCaught (CThrown (Error msg_no_json))]],
     Raised (CThrown (Error (str "Failed to generate the quiz.")))) /\
  exists log cause,
    failure_trace (@Resolved unit (Some (str "Sorry, no quiz today."))) log cause /\
    [[SArg (LString (str "Error generating quiz:"));
      SCaught (CThrown (Error msg_no_json))]] =
    [] ++ log ++ [[SArg (LString (str "Error generating quiz:")); SCaught cause]].
Proof.
  split; [reflexivity|].
  apply (decoder_failures_are_masked decimal_is
           (str "Error generating quiz:") (str "Failed to generate the quiz.")
           (generateQuiz decimal_is)
           (Resolved (Some (str "Sorry, no quiz today."))) [] _
           (CThrown (Error (str "Failed to generate the quiz.")))).
  - constructor.
  - reflexivity.
Defined.

Lemma generateQuiz_returns_iff_witness :
  generateQuiz decimal_is (@Resolved unit (Some sample_quiz_text)) [] =
    ([], Done sample_quiz).
Proof.
  apply (generateQuiz_returns_iff decimal_is).
  split; [reflexivity|].
  exists sample_quiz_text,
    [sample_question; sample_question; sample_question; sample_question;
     sample_question].
  split; [reflexivity|]. split; [vm_compute; reflexivity|].
  split; [reflexivity|]. split; [reflexivity|].
  repeat constructor; exists [(str "options", four_numbers)], four_numbers;
    repeat split.
Defined.

Lemma generateComprehensionTest_returns_iff_witness :
  generateComprehensionTest decimal_is (@Resolved unit (Some (str "[1,2,3,4]"))) [] =
    ([], Done four_numbers).
Proof.
  apply (generateComprehensionTest_returns_iff decimal_is).
  split; [reflexivity|]. exists (str "[1,2,3,4]").
  split; [reflexivity|]. split; [vm_compute; reflexivity | reflexivity].
Defined.

Lemma challenge_category_is_the_requested_witness :
  exists text parsed,
    @Resolved unit (Some sample_challenge_text) = Resolved (Some text) /\
    robustJsonParse text [] = ([], Normal parsed) /\
    overrides parsed [(str "category", JString (str "Puzzle"))]
      (JObject [(str "title", JString (str "T"));
                (str "category", JString (str "Puzzle"))]).
Proof.
  apply (challenge_category_is_the_requested (str "Puzzle")
           (Resolved (Some sample_challenge_text)) [] []).
  left. vm_compute. reflexivity.
Defined.

Lemma oddOneOut_returns_four_items_witness :
  exists text props items,
    @Resolved unit (Some sample_items_text) = Resolved (Some text) /\
    robustJsonParse text [] = ([], Normal (JObject props)) /\
    get_own props (str "items") = Some items /\
    has_length decimal_is items 4 /\
    overrides (JObject props) [(str "category", JString (str "Odd-One-Out"))]
      (JObject [(str "items", four_numbers);
                (str "category", JString (str "Odd-One-Out"))]).
Proof.
  apply (oddOneOut_returns_four_items decimal_is
           (Resolved (Some sample_items_text)) [] []).
  vm_compute. reflexivity.
Defined.

Lemma listening_challenge_fixed_fields_witness :
  exists text parsed,
    @Resolved unit (Some sample_challenge_text) = Resolved (Some text) /\
    robustJsonParse text [] = ([], Normal parsed) /\
    overrides parsed
      [(str "category", JString (str "Listening Practice"));
       (str "suggestedTime", JNumber (mkNum false 0 0));
       (str "task",
        JString (str "Listen to the story and answer the questions that follow."))]
      (JObject
         [(str "title", JString (str "T"));
          (str "category", JString (str "Listening Practice"));
          (str "suggestedTime", JNumber (mkNum false 0 0));
          (str "task",
           JString (str "Listen to the story and answer the questions that follow."))]).
Proof.
  apply (listening_challenge_fixed_fields
           (Resolved (Some sample_challenge_text)) [] []).
  vm_compute. reflexivity.
Defined.

Lemma plain_decoders_return_any_value_witness :
  generateAnalyticsInsights (@Resolved unit (Some (str "}1{"))) [] =
    ([], Done (JNumber one)).
Proof.
  apply (proj2 (proj2 (proj2 (plain_decoders_return_any_value []))) _ [] []).
  split; [reflexivity|]. exists (str "}1{"). split; reflexivity.
Defined.

Lemma generateQuiz_accepts_quiz_in_prose_witness :
  generateQuiz decimal_is
    (@Resolved unit
       (Some (str "```json " ++
              (str "[" ++ sample_question_text ++ str "," ++
               sample_question_text ++ str "," ++ sample_question_text ++
               str "," ++ sample_question_text ++ str "," ++
               sample_question_text ++ str "]") ++
              str " ```"))) [] =
    ([], Done sample_quiz).
Proof.
  apply (generateQuiz_accepts_quiz_in_prose decimal_is (str "```json ") _
           (str " ```")
           [sample_question; sample_question; sample_question;
            sample_question; sample_question] []).
  - split; unfold has_open, has_close; cbn; intuition discriminate.
  - split; unfold has_open, has_close; cbn; intuition discriminate.
  - vm_compute. reflexivity.
  - reflexivity.
  - repeat constructor; exists [(str "options", four_numbers)], four_numbers;
      repeat split.
Defined.
